(** * Tickora: a shallow embedding of the data layer of src/script.js

    The application keeps one JSON blob in localStorage (the ledger) and
    mutates it through a handful of functions.  This file embeds those
    functions, together with the parts of the ECMAScript [Date] object
    they use, and proves the properties of the specification about them.

    Conventions of the embedding:
    - a JavaScript string is its list of UTF-16 code units ([jsstr]);
    - a date key (the result of [toISOString().split('T')[0]]) is kept as
      its three numeric fields (year, month 1..12, day); the string is
      [key_string], whose fixed-width fields make string equality the
      same as equality of the fields;
    - a time value is a [Z] of milliseconds since the epoch (UTC); the
      host time zone is a [TimeZone] giving the offset from UTC both at a
      UTC instant and at a local wall-clock time, as ECMAScript's
      LocalTime and UTC operations use it;
    - a plain JavaScript object used as a dictionary is a [gmap] of its own
      properties, read through the prototype chain of [Object.prototype];
    - percentages are exact rationals (the source uses doubles). *)

From Stdlib Require Import ZArith QArith Lia String Ascii Qround Lqa.
From stdpp Require Import base list gmap sorting.

Open Scope Z_scope.

(** ** Calendar arithmetic (ECMAScript Day / YearFromTime / MakeDay) *)

Definition msPerDay : Z := 86400000.
Definition msPerHour : Z := 3600000.

(** A date key: year, month (1..12), day of month. *)
Definition DateKey := (Z * Z * Z)%type.

(** Days since 1970-01-01 to the proleptic Gregorian date (the
    computation ECMAScript's YearFromTime, MonthFromTime and DateFromTime
    perform together). *)
Definition civil_from_days (z0 : Z) : DateKey :=
  let z := z0 + 719468 in
  let era := z / 146097 in
  let doe := z - era * 146097 in
  let yoe := (doe - doe / 1460 + doe / 36524 - doe / 146096) / 365 in
  let y := yoe + era * 400 in
  let doy := doe - (365 * yoe + yoe / 4 - yoe / 100) in
  let mp := (5 * doy + 2) / 153 in
  let d := doy - (153 * mp + 2) / 5 + 1 in
  let m := if mp <? 10 then mp + 3 else mp - 9 in
  (if m <=? 2 then y + 1 else y, m, d).

(** The inverse direction: day number of a (year, month, day). *)
Definition days_from_civil (k : DateKey) : Z :=
  let '(y0, m, d) := k in
  let y := if m <=? 2 then y0 - 1 else y0 in
  let era := y / 400 in
  let yoe := y - era * 400 in
  let mp := if m >? 2 then m - 3 else m + 9 in
  let doy := (153 * mp + 2) / 5 + d - 1 in
  let doe := yoe * 365 + yoe / 4 - yoe / 100 + doy in
  era * 146097 + doe - 719468.

Definition Day (t : Z) : Z := t / msPerDay.
Definition TimeWithinDay (t : Z) : Z := t mod msPerDay.

(** MakeDay(year, month, date), month counted from 0 and possibly out of
    range, date possibly 0 or negative. *)
Definition MakeDay (year month date : Z) : Z :=
  days_from_civil (year + month / 12, month mod 12 + 1, 1) + date - 1.

Definition MakeDate (day time : Z) : Z := day * msPerDay + time.

(** ** The host time zone *)

Record TimeZone := {
  (** offset (ms) of local time from UTC at a UTC instant *)
  tz_offset_utc : Z -> Z;
  (** offset (ms) used to read a local wall-clock time back as UTC *)
  tz_offset_local : Z -> Z
}.

Definition LocalTime (tz : TimeZone) (t : Z) : Z := t + tz_offset_utc tz t.
Definition UTC (tz : TimeZone) (l : Z) : Z := l - tz_offset_local tz l.

(** A zone with one fixed offset, such as UTC, CET without daylight saving
    time, or India Standard Time. *)
Definition fixed_zone (o : Z) : TimeZone :=
  {| tz_offset_utc := fun _ => o; tz_offset_local := fun _ => o |}.

(** The US Eastern zone (rules in force since 2007): UTC-5, and UTC-4 from
    the second Sunday of March 02:00 local to the first Sunday of November
    02:00 local.  A local time in the skipped hour is read with the offset
    before the transition, a repeated local time as the earlier instant,
    as ECMAScript prescribes. *)
Definition weekday (z : Z) : Z := (z + 4) mod 7.
Definition sunday_on_or_after (z : Z) : Z := z + (7 - weekday z) mod 7.
Definition dst_start_day (y : Z) : Z := sunday_on_or_after (days_from_civil (y, 3, 8)).
Definition dst_end_day (y : Z) : Z := sunday_on_or_after (days_from_civil (y, 11, 1)).
Definition key_year (k : DateKey) : Z := let '(y, _, _) := k in y.
Definition key_month (k : DateKey) : Z := let '(_, m, _) := k in m.
Definition key_day (k : DateKey) : Z := let '(_, _, d) := k in d.

Definition us_eastern : TimeZone := {|
  tz_offset_utc := fun t =>
    let y := key_year (civil_from_days (Day t)) in
    if (dst_start_day y * msPerDay + 7 * msPerHour <=? t) &&
       (t <? dst_end_day y * msPerDay + 6 * msPerHour)
    then -4 * msPerHour else -5 * msPerHour;
  tz_offset_local := fun l =>
    let y := key_year (civil_from_days (Day l)) in
    if (dst_start_day y * msPerDay + 3 * msPerHour <=? l) &&
       (l <? dst_end_day y * msPerDay + 2 * msPerHour)
    then -4 * msPerHour else -5 * msPerHour
|}.

(** ** The Date operations the source uses *)

Section DateOps.
Variable tz : TimeZone.

Definition local_fields (t : Z) : DateKey := civil_from_days (Day (LocalTime tz t)).
Definition getFullYear (t : Z) : Z := key_year (local_fields t).
Definition getMonth (t : Z) : Z := key_month (local_fields t) - 1.
Definition getDate (t : Z) : Z := key_day (local_fields t).

(** [d.setDate(dt)]: replace the local day of month, keep the local time
    of day, read the result back as UTC. *)
Definition setDate (t dt : Z) : Z :=
  let l := LocalTime tz t in
  UTC tz (MakeDate (MakeDay (getFullYear t) (getMonth t) dt) (TimeWithinDay l)).

(** [new Date(year, month, day)]: local midnight. *)
Definition new_Date_local (year month day : Z) : Z :=
  UTC tz (MakeDate (MakeDay year month day) 0).

End DateOps.

(** [d.toISOString().split('T')[0]]: the UTC calendar date. *)
Definition iso_date_key (t : Z) : DateKey := civil_from_days (Day t).

(** [new Date("YYYY-MM-DD")]: a date-only ISO string is read as UTC
    midnight. *)
Definition parse_date_key (k : DateKey) : Z := days_from_civil k * msPerDay.

(** ** Date keys as strings *)

Definition jsstr := list Z.

Definition dec_digits (w : nat) (n : Z) : jsstr :=
  map (fun i => 48 + (n / 10 ^ Z.of_nat i) mod 10) (rev (seq 0 w)).

(** toISOString writes years 0..9999 with four digits, others with a sign
    and six digits. *)
Definition year_string (y : Z) : jsstr :=
  if (0 <=? y) && (y <=? 9999) then dec_digits 4 y
  else (if y <? 0 then 45 else 43) :: dec_digits 6 (Z.abs y).

Definition key_string (k : DateKey) : jsstr :=
  let '(y, m, d) := k in
  year_string y ++ [45] ++ dec_digits 2 m ++ [45] ++ dec_digits 2 d.

(** String comparison of the default [Array.prototype.sort] order. *)
Fixpoint str_ltb (a b : jsstr) : bool :=
  match a, b with
  | [], [] => false
  | [], _ :: _ => true
  | _ :: _, [] => false
  | x :: a', y :: b' => if x <? y then true else if y <? x then false else str_ltb a' b'
  end.

Definition key_ltb (a b : DateKey) : bool := str_ltb (key_string a) (key_string b).

(** [Array.prototype.sort] with a comparator, as a stable insertion sort:
    [lt y x] holds when the comparator puts [y] strictly before [x]. *)
Section Sort.
Context {A : Type} (lt : A -> A -> bool).
Fixpoint insert_by (x : A) (l : list A) : list A :=
  match l with
  | [] => [x]
  | y :: l' => if lt y x then y :: insert_by x l' else x :: y :: l'
  end.
Fixpoint sort_by (l : list A) : list A :=
  match l with
  | [] => []
  | x :: l' => insert_by x (sort_by l')
  end.
End Sort.

(** ** The ledger (the JSON blob stored under [tickoraData]) *)

Inductive Theme := Light | Dark.

(** [dailyData] maps a date key to that day's record, a plain object from
    activity names to completion flags. *)
Record Ledger := mkLedger {
  activities : list jsstr;
  dailyData : gmap DateKey (gmap jsstr bool);
  lastResetDate : DateKey;
  theme : Theme;
  appOpens : list DateKey;
  currentStreak : Z;
  bestStreak : Z;
  lastOpenDate : DateKey
}.

Definition set_streaks (d : Ledger) (opens : list DateKey) (cur best : Z) : Ledger :=
  mkLedger (activities d) (dailyData d) (lastResetDate d) (theme d)
           opens cur best (lastOpenDate d).

(** [array.includes(key)] on an array of date-key strings. *)
Definition includes (A : list DateKey) (k : DateKey) : bool :=
  existsb (fun a => bool_decide (a = k)) A.

(** ** updateStreak *)

Section Streak.
Variable tz : TimeZone.

(** [checkDate.setDate(checkDate.getDate() - 1)] *)
Definition prev_day (t : Z) : Z := setDate tz t (getDate tz t - 1).

(** The [while (true)] loop: count a hit and step one day back, stop at
    the first date not in the log.  The loop visits a new day on every
    turn, so it stops within [length A + 1] turns; the fuel is that bound. *)
Fixpoint count_back (fuel : nat) (A : list DateKey) (checkDate streak : Z) : Z :=
  match fuel with
  | O => streak
  | S f =>
      if includes A (iso_date_key checkDate)
      then count_back f A (prev_day checkDate) (streak + 1)
      else streak
  end.

(** The current streak, from [sortedDates] and the clock [now]. *)
Definition current_streak (now : Z) (sortedDates : list DateKey) : Z :=
  let fuel := S (length sortedDates) in
  let today := iso_date_key now in
  let todayDate := parse_date_key today in
  if includes sortedDates today then
    count_back fuel sortedDates (prev_day todayDate) 1
  else
    let checkDate := prev_day todayDate in
    if includes sortedDates (iso_date_key checkDate)
    then count_back fuel sortedDates (prev_day checkDate) 1
    else 0.

(** The scan over [sortedDatesObj] for [i >= 1], returning
    [(bestStreak, tempStreak)]. *)
Fixpoint best_scan (prev : Z) (l : list Z) (best temp : Z) : Z * Z :=
  match l with
  | [] => (best, temp)
  | curr :: l' =>
      let diffDays := (curr - prev) / msPerDay in
      if diffDays =? 1 then best_scan curr l' best (temp + 1)
      else best_scan curr l' (Z.max best temp) 1
  end.

Definition best_streak (sortedDatesObj : list Z) (current : Z) : Z :=
  match sortedDatesObj with
  | [] => Z.max 0 (Z.max 0 current)
  | first :: rest =>
      let '(best, temp) := best_scan first rest 0 1 in
      Z.max best (Z.max temp current)
  end.

(** [updateStreak(data)]; [appOpens.sort()] sorts the log in place. *)
Definition updateStreak (now : Z) (d : Ledger) : Ledger :=
  match appOpens d with
  | [] => set_streaks d [] 0 0
  | _ =>
      let sortedDates := sort_by key_ltb (appOpens d) in
      let cur := current_streak now sortedDates in
      let sortedDatesObj := sort_by Z.ltb (map parse_date_key sortedDates) in
      set_streaks d sortedDates cur (best_streak sortedDatesObj cur)
  end.

End Streak.

(** The initial ledger ([initializeData]). *)
Definition initializeData (now : Z) : Ledger :=
  let today := iso_date_key now in
  mkLedger [] ∅ today Light [] 0 0 today.

(** A time value for a UTC date and hour. *)
Definition utc_time (k : DateKey) (hour : Z) : Z := parse_date_key k + hour * msPerHour.

(** ** Date ranges: getTodayDate, getWeekDates, getMonthDates *)

Definition getTodayDate (now : Z) : DateKey := iso_date_key now.

Definition getWeekDates (tz : TimeZone) (now : Z) : list DateKey :=
  map (fun i => iso_date_key (setDate tz now (getDate tz now - i))) [6; 5; 4; 3; 2; 1; 0].

Definition getMonthDates (tz : TimeZone) (now : Z) : list DateKey :=
  let year := getFullYear tz now in
  let month := getMonth tz now in
  let daysInMonth := getDate tz (new_Date_local tz year (month + 1) 0) in
  map (fun day => iso_date_key (new_Date_local tz year month day))
      (map Z.of_nat (seq 1 (Z.to_nat daysInMonth))).

(** The local calendar date of an instant (what the spec calls the date
    under local wall-clock time). *)
Definition local_date (tz : TimeZone) (t : Z) : DateKey := local_fields tz t.

(** ** Plain objects used as dictionaries *)

(** A JavaScript string literal, as UTF-16 code units. *)
Definition js (s : string) : jsstr :=
  map (fun c => Z.of_nat (Ascii.nat_of_ascii c)) (String.list_ascii_of_string s).

Inductive JSValue := VUndefined | VBool (b : bool) | VFunction | VObject.

(** Properties every plain object inherits from [Object.prototype]. *)
Definition object_proto_methods : list jsstr :=
  map js ["constructor"; "__defineGetter__"; "__defineSetter__"; "hasOwnProperty";
          "__lookupGetter__"; "__lookupSetter__"; "isPrototypeOf";
          "propertyIsEnumerable"; "toString"; "valueOf"; "toLocaleString"]%string.

Definition proto_prop (k : jsstr) : JSValue :=
  if bool_decide (k = js "__proto__") then VObject
  else if existsb (fun p => bool_decide (p = k)) object_proto_methods then VFunction
  else VUndefined.

(** [obj[k]]: an own property, else the inherited one. *)
Definition get_prop (r : gmap jsstr bool) (k : jsstr) : JSValue :=
  match r !! k with
  | Some b => VBool b
  | None => proto_prop k
  end.

(** [obj[k] = b]: without an own [__proto__] property the assignment goes
    to the inherited [__proto__] setter, which ignores a non-object. *)
Definition set_prop (r : gmap jsstr bool) (k : jsstr) (b : bool) : gmap jsstr bool :=
  if bool_decide (k = js "__proto__") && bool_decide (r !! k = None) then r
  else <[k := b]> r.

Definition truthy (v : JSValue) : bool :=
  match v with
  | VUndefined => false
  | VBool b => b
  | VFunction | VObject => true
  end.

Definition is_undefined (v : JSValue) : bool :=
  match v with VUndefined => true | _ => false end.

Definition is_true (v : JSValue) : bool :=
  match v with VBool true => true | _ => false end.

(** ** Field updates of the ledger *)

Definition with_activities (d : Ledger) (a : list jsstr) : Ledger :=
  mkLedger a (dailyData d) (lastResetDate d) (theme d)
           (appOpens d) (currentStreak d) (bestStreak d) (lastOpenDate d).
Definition with_dailyData (d : Ledger) (m : gmap DateKey (gmap jsstr bool)) : Ledger :=
  mkLedger (activities d) m (lastResetDate d) (theme d)
           (appOpens d) (currentStreak d) (bestStreak d) (lastOpenDate d).
Definition with_appOpens (d : Ledger) (o : list DateKey) : Ledger :=
  mkLedger (activities d) (dailyData d) (lastResetDate d) (theme d)
           o (currentStreak d) (bestStreak d) (lastOpenDate d).
Definition with_lastOpenDate (d : Ledger) (k : DateKey) : Ledger :=
  mkLedger (activities d) (dailyData d) (lastResetDate d) (theme d)
           (appOpens d) (currentStreak d) (bestStreak d) k.
Definition with_lastResetDate (d : Ledger) (k : DateKey) : Ledger :=
  mkLedger (activities d) (dailyData d) k (theme d)
           (appOpens d) (currentStreak d) (bestStreak d) (lastOpenDate d).
Definition with_theme (d : Ledger) (t : Theme) : Ledger :=
  mkLedger (activities d) (dailyData d) (lastResetDate d) t
           (appOpens d) (currentStreak d) (bestStreak d) (lastOpenDate d).

(** ** Input sanitising and validation *)

(** A detached [div] holding text nodes. *)
Record Div := { div_text_nodes : list jsstr }.

(** [div.textContent = s]: replace the children with one text node (none
    for the empty string). *)
Definition set_textContent (s : jsstr) : Div :=
  {| div_text_nodes := if bool_decide (s = []) then [] else [s] |}.
Definition textContent (d : Div) : jsstr := concat (div_text_nodes d).
(** [innerText] of an element that is not rendered is its text content. *)
Definition innerText (d : Div) : jsstr := textContent d.

Definition js_or (a b : jsstr) : jsstr := if bool_decide (a = []) then b else a.

Definition sanitizeInput (input : jsstr) : jsstr :=
  let div := set_textContent input in
  js_or (textContent div) (js_or (innerText div) []).

(** White space and line terminators removed by [String.prototype.trim]. *)
Definition is_js_space (c : Z) : bool :=
  existsb (Z.eqb c)
    ([9; 10; 11; 12; 13; 32; 160; 5760; 8232; 8233; 8239; 8287; 12288; 65279] ++
     map (fun i => 8192 + Z.of_nat i) (seq 0 11)).

Fixpoint drop_spaces (s : jsstr) : jsstr :=
  match s with
  | c :: s' => if is_js_space c then drop_spaces s' else s
  | [] => []
  end.

Definition trim (s : jsstr) : jsstr := rev (drop_spaces (rev (drop_spaces s))).

(** [validateActivityName]: [None] is the [false] result. *)
Definition validateActivityName (name : jsstr) : option jsstr :=
  if bool_decide (name = []) then None
  else
    let sanitized := trim (sanitizeInput name) in
    if (length sanitized =? 0)%nat || (100 <? length sanitized)%nat then None
    else Some sanitized.

Definition str_includes (l : list jsstr) (s : jsstr) : bool :=
  existsb (fun a => bool_decide (a = s)) l.

(** ** The ledger operations *)

Inductive AddError := InvalidName | DuplicateName | LimitExceeded.

(** [addActivity] either stops with an alert (the error) or hands the
    updated ledger to [saveData]. *)
Inductive AddOutcome := AddFailed (e : AddError) | AddSaved (d : Ledger).

Section Operations.
Variable tz : TimeZone.
(** Whether [saveData] writes a ledger: its JSON text is at most 5,000,000
    characters and [localStorage.setItem] does not throw. *)
Variable fits : Ledger -> bool.

(** [saveData(data)]: the stored ledger afterwards. *)
Definition saveData (d stored : Ledger) : Ledger := if fits d then d else stored.

(** The outcome of [addActivity(name)] on the stored ledger [st]. *)
Definition addActivity_outcome (name : jsstr) (st : Ledger) : AddOutcome :=
  match validateActivityName name with
  | None => AddFailed InvalidName
  | Some validatedName =>
      if str_includes (activities st) validatedName then AddFailed DuplicateName
      else if (50 <=? length (activities st))%nat then AddFailed LimitExceeded
      else AddSaved (with_activities st (activities st ++ [validatedName]))
  end.

(** The stored ledger after [addActivity(name)]. *)
Definition addActivity (name : jsstr) (st : Ledger) : Ledger :=
  match addActivity_outcome name st with
  | AddFailed _ => st
  | AddSaved d => saveData d st
  end.

(** [deleteActivity(name)]; [confirmed] is the answer to the [confirm]
    prompt. *)
Definition deleteActivity_data (name : jsstr) (st : Ledger) : Ledger :=
  let acts := filter (fun a => a ≠ name) (activities st) in
  let dd := (fun r : gmap jsstr bool =>
               if negb (is_undefined (get_prop r name)) then delete name r else r)
            <$> dailyData st in
  with_dailyData (with_activities st acts) dd.

Definition deleteActivity (confirmed : bool) (name : jsstr) (st : Ledger) : Ledger :=
  if negb confirmed then st else saveData (deleteActivity_data name st) st.

(** [toggleActivity(activityName)] at the instant [now]. *)
Definition toggleActivity_data (now : Z) (activityName : jsstr) (st : Ledger) : Ledger :=
  let today := getTodayDate now in
  let record := match dailyData st !! today with Some r => r | None => ∅ end in
  let currentStatus := truthy (get_prop record activityName) in
  with_dailyData st (<[today := set_prop record activityName (negb currentStatus)]> (dailyData st)).

Definition toggleActivity (now : Z) (activityName : jsstr) (st : Ledger) : Ledger :=
  saveData (toggleActivity_data now activityName st) st.

(** [trackAppOpen()] at the instant [now]. *)
Definition trackAppOpen (now : Z) (st : Ledger) : Ledger :=
  let today := getTodayDate now in
  if includes (appOpens st) today then st
  else
    let d := with_appOpens st (appOpens st ++ [today]) in
    let d := updateStreak tz now d in
    saveData (with_lastOpenDate d today) st.

(** [checkDailyReset()] at the instant [now]. *)
Definition checkDailyReset (now : Z) (st : Ledger) : Ledger :=
  let today := getTodayDate now in
  if bool_decide (lastResetDate st = today) then st
  else saveData (with_lastResetDate st today) st.

(** [toggleTheme()] *)
Definition toggleTheme (st : Ledger) : Ledger :=
  saveData (with_theme st (match theme st with Light => Dark | Dark => Light end)) st.

(** Every change of the stored ledger the application can make. *)
Inductive step : Ledger -> Ledger -> Prop :=
  | step_track now st : step st (trackAppOpen now st)
  | step_reset now st : step st (checkDailyReset now st)
  | step_add name st : step st (addActivity name st)
  | step_delete confirmed name st : step st (deleteActivity confirmed name st)
  | step_toggle now name st : step st (toggleActivity now name st)
  | step_theme st : step st (toggleTheme st).

(** Ledgers reachable from a freshly initialised one. *)
Inductive reachable : Ledger -> Prop :=
  | reach_init now : reachable (initializeData now)
  | reach_step st st' : reachable st -> step st st' -> reachable st'.

End Operations.

(** ** calculateSuccessPercentage *)

Record Stats := mkStats { completedDays : Z; overall : Z }.

(** [Math.round] *)
Definition math_round (x : Q) : Z := Qfloor (x + (1 # 2))%Q.

(** The per-date pass over [activities]: [(dayCompleted, hasData)]. *)
Definition day_scan (activities : list jsstr) (dayData : gmap jsstr bool) : Z * bool :=
  fold_left (fun acc activity =>
               let '(dayCompleted, hasData) := acc in
               (if is_true (get_prop dayData activity) then dayCompleted + 1 else dayCompleted,
                if negb (is_undefined (get_prop dayData activity)) then true else hasData))
            activities (0, false).

Definition calculateSuccessPercentage (d : Ledger) (dateRange : list DateKey) : Stats :=
  let acts := activities d in
  if (length acts =? 0)%nat || (length dateRange =? 0)%nat then mkStats 0 0
  else
    let n := inject_Z (Z.of_nat (length acts)) in
    let '(daysWithData, completed, totalDayPercentage) :=
      fold_left (fun (acc : Z * Z * Q) (date : DateKey) =>
                   let '(daysWithData, completed, total) := acc in
                   let dayData := match dailyData d !! date with Some r => r | None => ∅ end in
                   let '(dayCompleted, hasData) := day_scan acts dayData in
                   if hasData then
                     let dayPercentage := ((inject_Z dayCompleted / n) * 100)%Q in
                     (daysWithData + 1, (if Qeq_bool dayPercentage 100%Q then completed + 1 else completed),
                      (total + dayPercentage)%Q)
                   else (daysWithData, completed, total))
                dateRange (0, 0, 0%Q) in
    let overall := if 0 <? daysWithData
                   then math_round (totalDayPercentage / inject_Z daysWithData)%Q else 0 in
    mkStats completed overall.

(** ** Sortedness and reference notions *)

(** A list ordered by the comparison [lt]: no element is [lt]-smaller
    than its predecessor. *)
Definition sorted_by {A} (lt : A -> A -> bool) : list A -> Prop :=
  Sorted (fun a b => lt b a = false).

(** Day numbers that follow each other one day apart. *)
Fixpoint chain (l : list Z) : Prop :=
  match l with
  | [] => True
  | x :: l' => match l' with [] => True | y :: _ => y = x + 1 /\ chain l' end
  end.

(** [n] is the length of the longest run of consecutive days in [s]: some
    non-empty contiguous segment of [s] is such a run of length [n], and
    none is longer. *)
Definition longest_run (s : list Z) (n : Z) : Prop :=
  (exists a b c, s = a ++ b ++ c /\ b <> [] /\ chain b /\ Z.of_nat (length b) = n) /\
  (forall a b c, s = a ++ b ++ c -> chain b -> Z.of_nat (length b) <= n).

(** The same, for the runs that end at the last element of [s]. *)
Definition longest_suffix_run (s : list Z) (n : Z) : Prop :=
  (exists a b, s = a ++ b /\ b <> [] /\ chain b /\ Z.of_nat (length b) = n) /\
  (forall a b, s = a ++ b -> chain b -> Z.of_nat (length b) <= n).

(** A ledger whose app-open log is [A]. *)
Definition log_with (A : list DateKey) : Ledger := set_streaks (initializeData 0) A 0 0.

(** Today's record of a ledger, empty when there is none. *)
Definition record_at (st : Ledger) (date : DateKey) : gmap jsstr bool :=
  default ∅ (dailyData st !! date).

(** Two activities, one of them named after an Object.prototype property. *)
Definition two_activity_ledger : Ledger :=
  mkLedger [js "Gym"; js "constructor"] {[ (2024, 1, 1) := {[ js "Gym" := true ]} ]}
           (2024, 1, 1) Light [] 0 0 (2024, 1, 1).

(** The sanitising the specification describes: HTML-escaping (as the
    serialisation of a text node escapes [&], [<], [>] and the no-break
    space), then trimming. *)
Definition html_escape (s : jsstr) : jsstr :=
  flat_map (fun c => if c =? 38 then js "&amp;" else if c =? 60 then js "&lt;"
                     else if c =? 62 then js "&gt;" else if c =? 160 then js "&nbsp;"
                     else [c]) s.
Definition spec_sanitize (s : jsstr) : jsstr := trim (html_escape s).

(** ** More of the page script: reading today's record, the calendar,
    reminders, handlers, throttle *)

(** ** Reading today's record: getActivityStatus, calculateProgress *)

(** [getActivityStatus(activityName)] at the instant [now]: the value it
    returns ([dailyData[today][activityName] || false]). *)
Definition getActivityStatus (now : Z) (activityName : jsstr) (st : Ledger) : JSValue :=
  let today := getTodayDate now in
  match dailyData st !! today with
  | None => VBool false
  | Some r => let v := get_prop r activityName in if truthy v then v else VBool false
  end.

(** [calculateProgress()] at the instant [now]. *)
Definition calculateProgress (now : Z) (st : Ledger) : Z :=
  let today := getTodayDate now in
  let acts := activities st in
  if (length acts =? 0)%nat then 0
  else
    let todayData := match dailyData st !! today with Some r => r | None => ∅ end in
    let completed := fold_left (fun c activity =>
                       if is_true (get_prop todayData activity) then c + 1 else c) acts 0 in
    math_round ((inject_Z completed / inject_Z (Z.of_nat (length acts))) * 100)%Q.

(** ** One day of generateCalendar and of showDayDetails *)

(** The colour class of a calendar day. *)
Inductive CellMark := MarkCompleted | MarkPartial | MarkEmpty.

(** The body of the [for (let day ...)] loop of [generateCalendar] for a
    day whose record is [dayData]: the colour class added to the cell, and
    the percentage span ([None]: no span, [Some None]: the text [-],
    [Some (Some p)]: the text [p%]). *)
Definition calendar_day_cell (activities : list jsstr) (dayData : gmap jsstr bool)
    : option CellMark * option (option Z) :=
  if (length activities =? 0)%nat then (None, None)
  else
    let '(completedCount, hasData) := day_scan activities dayData in
    let completionPercentage :=
      ((inject_Z completedCount / inject_Z (Z.of_nat (length activities))) * 100)%Q in
    let mark :=
      if Qeq_bool completionPercentage 100 then Some MarkCompleted
      else if negb (Qle_bool completionPercentage 0) && negb (Qle_bool 100 completionPercentage)
      then Some MarkPartial
      else if hasData then Some MarkEmpty else None in
    (mark, Some (if hasData then Some (math_round completionPercentage) else None)).

(** The status of one activity in the day popup. *)
Inductive ActivityMark := StatusCompleted | StatusNotCompleted | StatusNotStarted.

(** [showDayDetails(dateStr, ...)]: the completion percentage, the counts
    [(completedCount / totalCount)] and the status line of each activity. *)
Definition showDayDetails (st : Ledger) (dateStr : DateKey)
    : Z * Z * Z * list (ActivityMark * jsstr) :=
  let dayData := match dailyData st !! dateStr with Some r => r | None => ∅ end in
  let acts := activities st in
  let completedCount := fold_left (fun c activity =>
                          if is_true (get_prop dayData activity) then c + 1 else c) acts 0 in
  let totalCount := Z.of_nat (length acts) in
  let completionPercentage :=
    if 0 <? totalCount
    then math_round ((inject_Z completedCount / inject_Z totalCount) * 100)%Q else 0 in
  let status := fun activity =>
    if is_true (get_prop dayData activity) then StatusCompleted
    else if negb (is_undefined (get_prop dayData activity)) then StatusNotCompleted
    else StatusNotStarted in
  (completionPercentage, completedCount, totalCount, map (fun a => (status a, a)) acts).

(** ** Notifications *)

(** The body of the daily reminder. *)
Inductive Reminder := ReminderNoActivities | ReminderIncomplete (n : Z) | ReminderAllDone.

(** [sendDailyReminderNotification()] at [now]; [granted] is
    ['Notification' in window && Notification.permission === 'granted'].
    The result is the notification shown, if any. *)
Definition sendDailyReminderNotification (granted : bool) (now : Z) (st : Ledger)
    : option Reminder :=
  if negb granted then None
  else
    let today := getTodayDate now in
    let todayData := match dailyData st !! today with Some r => r | None => ∅ end in
    let acts := activities st in
    if (length acts =? 0)%nat then Some ReminderNoActivities
    else
      let incompleteCount := fold_left (fun c activity =>
                               if negb (truthy (get_prop todayData activity)) then c + 1 else c)
                               acts 0 in
      if 0 <? incompleteCount then Some (ReminderIncomplete incompleteCount)
      else Some ReminderAllDone.

(** [scheduleDailyReminder()] at [now]; [sent] is the set of days whose
    [daily_reminder_<day>] key is in localStorage.  The result is the
    notification shown, if any, and the new set. *)
Definition scheduleDailyReminder (granted : bool) (now : Z) (st : Ledger) (sent : gset DateKey)
    : option Reminder * gset DateKey :=
  let today := getTodayDate now in
  if bool_decide (today ∈ sent) then (None, sent)
  else (sendDailyReminderNotification granted now st, {[ today ]} ∪ sent).

(** ** Event handlers *)

(** The save button's click handler (the Enter key clicks it too):
    [None] when the trimmed input is empty and nothing is called, else the
    outcome of [addActivity(name)]. *)
Definition saveActivityClick_outcome (value : jsstr) (st : Ledger) : option AddOutcome :=
  let name := trim value in
  if bool_decide (name = []) then None else Some (addActivity_outcome name st).

Section Handlers.
Variable tz : TimeZone.
Variable fits : Ledger -> bool.

(** The data part of the [DOMContentLoaded] handler: [checkDailyReset()]
    then [trackAppOpen()]. *)
Definition startup (now : Z) (st : Ledger) : Ledger :=
  trackAppOpen tz fits now (checkDailyReset fits now st).

(** The minute check [checkNewDay]: on a new day, reset and record the
    open. *)
Definition checkNewDay (now : Z) (st : Ledger) : Ledger :=
  if bool_decide (lastResetDate st ≠ getTodayDate now) then startup now st else st.

End Handlers.

(** ** throttle *)

(** The closure state of [throttle(func, limit)]: the [inThrottle] flag
    and the due times of the pending [setTimeout] callbacks. *)
Record Throttle := mkThrottle { inThrottle : bool; timers : list Z }.

(** What happens to a throttled function: a call at time [t], in which
    [func] returns normally when [ok] holds and throws otherwise, or a
    pending callback run by the event loop at time [t]. *)
Inductive ThrottleEvent := TCall (t : Z) (ok : bool) | TFire (t : Z).

(** One call of the returned function at time [t]: the new closure state,
    and [Some (t, ok)] when [func] runs.  [func.apply] comes first, so when
    it throws the exception leaves the function before [inThrottle] is set
    and the reset is scheduled. *)
Definition throttle_call (limit : Z) (s : Throttle) (t : Z) (ok : bool)
    : Throttle * option (Z * bool) :=
  if negb (inThrottle s) then
    if ok then (mkThrottle true (timers s ++ [t + limit]), Some (t, true))
    else (s, Some (t, false))
  else (s, None).

(** The event loop runs a pending callback, [() => inThrottle = false], no
    earlier than its due time. *)
Inductive throttle_fire : Throttle -> Z -> Throttle -> Prop :=
  | fire_timer b ts1 due ts2 t : due <= t ->
      throttle_fire (mkThrottle b (ts1 ++ due :: ts2)) t (mkThrottle false (ts1 ++ ts2)).

(** A sequence of events in time order from the closure state [s] at the
    clock [clk]; [runs] lists the times at which [func] ran, each with
    whether it returned normally. *)
Inductive throttle_trace (limit : Z) : Throttle -> Z -> list ThrottleEvent -> list (Z * bool) -> Prop :=
  | trace_nil s clk : throttle_trace limit s clk [] []
  | trace_call s clk t ok es runs :
      clk <= t ->
      throttle_trace limit (fst (throttle_call limit s t ok)) t es runs ->
      throttle_trace limit s clk (TCall t ok :: es)
                     (option_list (snd (throttle_call limit s t ok)) ++ runs)
  | trace_fire s s' clk t es runs :
      clk <= t -> throttle_fire s t s' ->
      throttle_trace limit s' t es runs ->
      throttle_trace limit s clk (TFire t :: es) runs.

(** The calls of a sequence of events, with their outcome. *)
Definition throttle_calls (es : list ThrottleEvent) : list (Z * bool) :=
  flat_map (fun e => match e with TCall t ok => [(t, ok)] | TFire _ => [] end) es.

(** The days [e], [e - 1], ..., [e - n + 1] are all in the log [A] and the
    day [e - n] is not: a run of [n] consecutive days ending on day [e]. *)
Definition run_back (A : list DateKey) (e n : Z) : Prop :=
  0 <= n /\ (forall i, 0 <= i < n -> civil_from_days (e - i) ∈ A) /\
  civil_from_days (e - n) ∉ A.

(** ** renderActivities *)

(** The rows [renderActivities()] builds at the instant [now]: [None] for
    the empty-state item, otherwise one row per activity, in list order,
    with the name and the [checked] flag of its checkbox
    ([checkbox.checked = getActivityStatus(activity)] converts the value
    with ToBoolean). *)
Definition renderActivities (now : Z) (st : Ledger) : option (list (jsstr * bool)) :=
  if (length (activities st) =? 0)%nat then None
  else Some (map (fun activity => (activity, truthy (getActivityStatus now activity st)))
                 (activities st)).

(** A click on the checkbox of row [i] of the list on the page: the
    browser flips the box's [checked] state and fires [change], whose
    listener runs [toggleActivity(activity)]; nothing renders the list
    again ([toggleActivity] only refreshes the progress, the statistics,
    the streak and the calendar).  The result is the rows on the page and
    the stored ledger afterwards; [None] when there is no row [i]. *)
Definition click_checkbox (fits : Ledger -> bool) (now : Z) (i : nat)
    (rows : list (jsstr * bool)) (st : Ledger) : option (list (jsstr * bool) * Ledger) :=
  match rows !! i with
  | Some (activity, checked) =>
      Some (<[i := (activity, negb checked)]> rows, toggleActivity fits now activity st)
  | None => None
  end.

(** The rows on the page list the activities, and the box of every
    activity whose name is not inherited from [Object.prototype] shows its
    stored status. *)
Definition rows_show (now : Z) (st : Ledger) (rows : list (jsstr * bool)) : Prop :=
  fst <$> rows = activities st /\
  forall j a c, rows !! j = Some (a, c) -> proto_prop a = VUndefined ->
    c = truthy (getActivityStatus now a st).

(** A status line of the day popup that says completed. *)
Definition is_completed_mark (x : ActivityMark * jsstr) : bool :=
  match x.1 with StatusCompleted => true | _ => false end.

(** The shape of a well-formed activity list. *)
Definition acts_ok (l : list jsstr) : Prop :=
  NoDup l /\ (length l <= 50)%nat /\
  (forall a, a ∈ l -> trim a = a /\ (1 <= length a <= 100)%nat).

(** The closure state seen from the last run [last] of [func], at the
    clock [clk]. *)
Definition throttle_inv (limit : Z) (s : Throttle) (clk : Z) (last : option Z) : Prop :=
  match last with
  | None => s = mkThrottle false []
  | Some l => (inThrottle s = true /\ timers s = [l + limit] /\ l <= clk) \/
              (inThrottle s = false /\ timers s = [] /\ l + limit <= clk)
  end.

(** ** Gregorian month lengths *)

Definition leap_year (y : Z) : bool :=
  (y mod 4 =? 0) && (negb (y mod 100 =? 0) || (y mod 400 =? 0)).
Definition days_in_month (y m : Z) : Z :=
  if m =? 2 then (if leap_year y then 29 else 28)
  else if (m =? 4) || (m =? 6) || (m =? 9) || (m =? 11) then 30 else 31.
Definition next_month (y m : Z) : Z * Z := if m =? 12 then (y + 1, 1) else (y, m + 1).

(** One 400-year cycle, checked by evaluation. *)
Definition month_ok (y m : Z) : bool :=
  let d1 := days_from_civil (y, m, 1) in
  forallb (fun d => bool_decide (civil_from_days (d1 + d - 1) = (y, m, d)))
          (map Z.of_nat (seq 1 (Z.to_nat (days_in_month y m)))) &&
  bool_decide (days_from_civil (fst (next_month y m), snd (next_month y m), 1) = d1 + days_in_month y m).

(** * Properties *)

(** ** Sorting *)

Section SortFacts.
Context {A : Type} (lt : A -> A -> bool).
Hypothesis lt_asym : forall a b, lt a b = true -> lt b a = false.

Lemma insert_by_perm x l : insert_by lt x l ≡ₚ x :: l.
Proof.
  induction l as [|y l IH]; simpl; [done|].
  destruct (lt y x); [|done].
  rewrite IH. constructor.
Qed.

Lemma sort_by_perm l : sort_by lt l ≡ₚ l.
Proof.
  induction l as [|x l IH]; simpl; [done|].
  rewrite insert_by_perm, IH. done.
Qed.

Lemma insert_by_hd y x l :
  HdRel (fun a b => lt b a = false) y l -> lt x y = false ->
  HdRel (fun a b => lt b a = false) y (insert_by lt x l).
Proof.
  intros Hy Hxy. destruct l as [|z l]; simpl.
  - by constructor.
  - inversion Hy; subst. destruct (lt z x); by constructor.
Qed.

Lemma insert_by_sorted x l : sorted_by lt l -> sorted_by lt (insert_by lt x l).
Proof.
  unfold sorted_by. induction l as [|y l IH]; intros Hs; simpl.
  - repeat constructor.
  - apply Sorted_inv in Hs as [Hl Hy].
    destruct (lt y x) eqn:E.
    + constructor; [by apply IH|]. apply insert_by_hd; [done|]. by apply lt_asym.
    + constructor; [by constructor|]. by constructor.
Qed.

Lemma sort_by_sorted l : sorted_by lt (sort_by lt l).
Proof.
  induction l as [|x l IH]; simpl; [constructor|]. by apply insert_by_sorted.
Qed.

Lemma sort_by_id l : sorted_by lt l -> sort_by lt l = l.
Proof.
  unfold sorted_by. induction l as [|x l IH]; intros Hs; simpl; [done|].
  apply Sorted_inv in Hs as [Hl Hx]. rewrite IH by done.
  destruct l as [|y l]; simpl; [done|].
  inversion Hx; subst. by rewrite H0.
Qed.

Lemma sort_by_idem l : sort_by lt (sort_by lt l) = sort_by lt l.
Proof. apply sort_by_id, sort_by_sorted. Qed.

End SortFacts.

Lemma str_ltb_asym a b : str_ltb a b = true -> str_ltb b a = false.
Proof.
  revert b. induction a as [|x a IH]; intros [|y b]; simpl; try done.
  destruct (x <? y) eqn:E1; destruct (y <? x) eqn:E2; simpl; try done.
  - apply Z.ltb_lt in E1, E2. lia.
  - apply IH.
Qed.

Lemma key_ltb_asym a b : key_ltb a b = true -> key_ltb b a = false.
Proof. apply str_ltb_asym. Qed.

Lemma Z_ltb_asym a b : (a <? b) = true -> (b <? a) = false.
Proof. rewrite Z.ltb_lt, Z.ltb_ge. lia. Qed.

Lemma includes_spec A k : includes A k = true <-> k ∈ A.
Proof.
  unfold includes. rewrite existsb_exists, list_elem_of_In.
  split.
  - intros [a [Ha E]]. apply bool_decide_eq_true in E. by subst.
  - intros H. exists k. split; [done|]. by apply bool_decide_eq_true.
Qed.

Lemma includes_perm A B k : A ≡ₚ B -> includes A k = includes B k.
Proof.
  intros HP. apply eq_bool_prop_intro.
  rewrite !Is_true_true, !includes_spec. by rewrite HP.
Qed.

(** ** Calendar facts *)

Lemma civil_era_facts doe : 0 <= doe < 146097 ->
  let yoe := (doe - doe / 1460 + doe / 36524 - doe / 146096) / 365 in
  let doy := doe - (365 * yoe + yoe / 4 - yoe / 100) in
  let mp := (5 * doy + 2) / 153 in
  0 <= yoe < 400 /\ 0 <= mp < 12 /\
  yoe * 365 + yoe / 4 - yoe / 100 + ((153 * mp + 2) / 5 + (doy - (153 * mp + 2) / 5 + 1) - 1) = doe.
Proof.
  intros H yoe doy mp. subst yoe doy mp.
  Z.to_euclidean_division_equations. lia.
Qed.

Lemma days_from_civil_roundtrip z : days_from_civil (civil_from_days z) = z.
Proof.
  unfold civil_from_days, days_from_civil.
  set (z' := z + 719468).
  set (era := z' / 146097).
  set (doe := z' - era * 146097).
  assert (Hdoe : 0 <= doe < 146097) by (subst doe era; Z.to_euclidean_division_equations; lia).
  destruct (civil_era_facts doe Hdoe) as (Hy & Hm & Heq).
  set (yoe := (doe - doe / 1460 + doe / 36524 - doe / 146096) / 365) in *.
  set (doy := doe - (365 * yoe + yoe / 4 - yoe / 100)) in *.
  set (mp := (5 * doy + 2) / 153) in *.
  assert (Hera : forall k, 0 <= k < 400 -> (k + era * 400) / 400 = era).
  { intros k Hk. rewrite Z.div_add by lia. rewrite Z.div_small by lia. lia. }
  destruct (Z.ltb_spec mp 10).
  - destruct (Z.leb_spec (mp + 3) 2); [lia|].
    rewrite Hera by lia.
    replace (yoe + era * 400 - era * 400) with yoe by lia.
    destruct (Z.gtb_spec (mp + 3) 2); [|lia].
    replace (mp + 3 - 3) with mp by lia. lia.
  - destruct (Z.leb_spec (mp - 9) 2); [|lia].
    replace (yoe + era * 400 + 1 - 1) with (yoe + era * 400) by lia.
    rewrite Hera by lia.
    replace (yoe + era * 400 - era * 400) with yoe by lia.
    destruct (Z.gtb_spec (mp - 9) 2); [lia|].
    replace (mp - 9 + 9) with mp by lia. lia.
Qed.

Lemma civil_month_range z : 1 <= key_month (civil_from_days z) <= 12.
Proof.
  unfold civil_from_days.
  set (z' := z + 719468).
  set (era := z' / 146097).
  set (doe := z' - era * 146097).
  assert (Hdoe : 0 <= doe < 146097) by (subst doe era; Z.to_euclidean_division_equations; lia).
  destruct (civil_era_facts doe Hdoe) as (_ & Hm & _).
  set (mp := (5 * _ + 2) / 153) in *.
  destruct (Z.ltb_spec mp 10); destruct (_ <=? 2); simpl; lia.
Qed.

Lemma days_from_civil_day_shift y m d :
  days_from_civil (y, m, d) = days_from_civil (y, m, 1) + d - 1.
Proof. unfold days_from_civil. lia. Qed.

Lemma civil_from_days_inj a b : civil_from_days a = civil_from_days b -> a = b.
Proof.
  intros E. rewrite <- (days_from_civil_roundtrip a), <- (days_from_civil_roundtrip b).
  by rewrite E.
Qed.

(** In a zone with a fixed offset, [setDate(getDate() - 1)] moves back
    exactly one day. *)
Lemma prev_day_fixed o t : prev_day (fixed_zone o) t = t - msPerDay.
Proof.
  unfold prev_day, setDate, getDate, getFullYear, getMonth, local_fields,
    LocalTime, UTC, MakeDate, MakeDay, TimeWithinDay, Day.
  cbn [tz_offset_utc tz_offset_local fixed_zone].
  set (z := (t + o) / msPerDay).
  pose proof (civil_month_range z) as Hm.
  pose proof (days_from_civil_roundtrip z) as Hr.
  destruct (civil_from_days z) as [[y m] dd] eqn:Ec.
  cbn [key_year key_month key_day] in *.
  rewrite (Z.div_small (m - 1) 12) by lia.
  rewrite (Z.mod_small (m - 1) 12) by lia.
  replace (y + 0) with y by lia. replace (m - 1 + 1) with m by lia.
  rewrite days_from_civil_day_shift in Hr.
  assert (Hdm : t + o = msPerDay * z + (t + o) mod msPerDay)
    by (apply Z.div_mod; unfold msPerDay; lia).
  lia.
Qed.

(** A time value and the date key of its UTC day. *)
Lemma iso_date_key_day t : iso_date_key t = civil_from_days (Day t).
Proof. reflexivity. Qed.

Lemma day_of_day_start z : Day (z * msPerDay) = z.
Proof. unfold Day. apply Z.div_mul. unfold msPerDay. lia. Qed.

Lemma day_start_minus z : z * msPerDay - msPerDay = (z - 1) * msPerDay.
Proof. lia. Qed.

Lemma parse_iso_date_key t : parse_date_key (iso_date_key t) = Day t * msPerDay.
Proof. unfold parse_date_key, iso_date_key. by rewrite days_from_civil_roundtrip. Qed.

(** ** Shape of updateStreak *)

Lemma updateStreak_nonempty tz now d a l :
  appOpens d = a :: l ->
  updateStreak tz now d =
  set_streaks d (sort_by key_ltb (a :: l)) (current_streak tz now (sort_by key_ltb (a :: l)))
    (best_streak (sort_by Z.ltb (map parse_date_key (sort_by key_ltb (a :: l))))
       (current_streak tz now (sort_by key_ltb (a :: l)))).
Proof. intros E. unfold updateStreak. by rewrite E. Qed.

Lemma sort_keys_nonempty a l : exists b l', sort_by key_ltb (a :: l) = b :: l'.
Proof.
  destruct (sort_by key_ltb (a :: l)) as [|b l'] eqn:E.
  - pose proof (sort_by_perm key_ltb (a :: l)) as HP. rewrite E in HP.
    apply Permutation_nil in HP. done.
  - eauto.
Qed.

Lemma sort_keys_idem l : sort_by key_ltb (sort_by key_ltb l) = sort_by key_ltb l.
Proof. apply sort_by_idem, key_ltb_asym. Qed.

(** ** C7: the streak recomputation is idempotent *)

(** C7: recomputing the streaks a second time with the same clock and log
    gives back the same ledger (log order, current and best streak), and
    the streak pair depends on nothing but the log and the clock. *)
Theorem updateStreak_idempotent (tz : TimeZone) (now : Z) (d : Ledger) :
  updateStreak tz now (updateStreak tz now d) = updateStreak tz now d /\
  (forall d' : Ledger, appOpens d' = appOpens d ->
     currentStreak (updateStreak tz now d') = currentStreak (updateStreak tz now d) /\
     bestStreak (updateStreak tz now d') = bestStreak (updateStreak tz now d)).
Proof.
  split.
  - destruct (appOpens d) as [|a l] eqn:E.
    + unfold updateStreak. rewrite E. destruct d; simpl in *. by subst.
    + rewrite (updateStreak_nonempty _ _ _ _ _ E).
      destruct (sort_keys_nonempty a l) as (b & l' & Es).
      rewrite (updateStreak_nonempty tz now _ b l') by (simpl; exact Es).
      rewrite <- Es, sort_keys_idem.
      destruct d; reflexivity.
  - intros d' E. unfold updateStreak. rewrite E. by destruct (appOpens d).
Qed.

(** ** C2: the best streak is the longest run *)

Lemma chain_snoc b x :
  chain (b ++ [x]) <-> chain b /\ (forall y, last b = Some y -> x = y + 1).
Proof.
  induction b as [|a b IH]; simpl.
  - split; [|done]. intros _. split; [done|]. by intros y.
  - destruct b as [|c b]; simpl.
    + split.
      * intros [-> _]. split; [done|]. intros y [= ->]. done.
      * intros [_ H]. split; [|done]. by apply H.
    + simpl in IH. rewrite IH. split.
      * intros [Hc [Hb Hl]]. split; [done|]. done.
      * intros [[Hc Hb] Hl]. done.
Qed.

Lemma last_app_ne (a b : list Z) : b <> [] -> last (a ++ b) = last b.
Proof. intros Hb. rewrite last_app. by destruct (last b) eqn:E; [|apply last_None in E]. Qed.

Lemma app_snoc_split (a b P : list Z) x :
  a ++ b = P ++ [x] ->
  (b = [] /\ a = P ++ [x]) \/ (exists b', b = b' ++ [x] /\ a ++ b' = P).
Proof.
  destruct b as [|y b'] using rev_ind; intros E.
  - left. by rewrite app_nil_r in E.
  - right. rewrite app_assoc in E. apply app_inj_tail in E as [E ->]. eauto.
Qed.

Lemma suffix_step P prev t x :
  last P = Some prev -> longest_suffix_run P t ->
  longest_suffix_run (P ++ [x]) (if bool_decide (x = prev + 1) then t + 1 else 1).
Proof.
  intros Hl [(a & b & -> & Hb & Hc & Hn) Hub]. split.
  - case_bool_decide as Hx.
    + exists a, (b ++ [x]). rewrite app_assoc. split; [done|].
      split; [by destruct b|]. split.
      * apply chain_snoc. split; [done|]. intros y Hy.
        rewrite last_app_ne in Hl by done. congruence.
      * rewrite length_app. simpl. lia.
    + exists (a ++ b), [x]. done.
  - intros a' b' E Hc'. symmetry in E. apply app_snoc_split in E as [[-> _]|(b'' & -> & E)].
    { simpl. case_bool_decide; lia. }
    apply chain_snoc in Hc' as [Hc'' Hx]. rewrite length_app. simpl.
    destruct b'' as [|z b3] eqn:Eb; [simpl; case_bool_decide; lia|].
    rewrite <- Eb in *.
    assert (Hlast : last b'' = Some prev).
    { rewrite <- Hl, <- E. rewrite last_app_ne; [done|]. by subst. }
    rewrite bool_decide_true by (by apply Hx).
    pose proof (Hub a' b'' (eq_sym E) Hc''). lia.
Qed.

Lemma seg_step P m t x :
  longest_run P m -> longest_suffix_run (P ++ [x]) t ->
  longest_run (P ++ [x]) (Z.max m t).
Proof.
  intros [(a & b & c & -> & Hb & Hc & Hn) Hub] [(a' & b' & E' & Hb' & Hc' & Hn') Hub'].
  split.
  - destruct (Z.le_ge_cases t m).
    + exists a, b, (c ++ [x]). split; [by rewrite <- !app_assoc|]. split_and!; [done|done|lia].
    + exists a', b', []. rewrite app_nil_r. split_and!; [done|done|done|lia].
  - intros a2 b2 c2 E Hc2. symmetry in E. rewrite (app_assoc a2) in E.
    apply app_snoc_split in E as [[-> E]|(c3 & -> & E)].
    + pose proof (Hub' a2 b2 (eq_sym E) Hc2). lia.
    + rewrite <- app_assoc in E. pose proof (Hub a2 b2 c3 (eq_sym E) Hc2). lia.
Qed.

Lemma diff_days a b : (b * msPerDay - a * msPerDay) / msPerDay = b - a.
Proof. rewrite <- Z.mul_sub_distr_r. apply Z.div_mul. unfold msPerDay. lia. Qed.

Lemma best_scan_run l : forall P prev best temp,
  last P = Some prev -> longest_suffix_run P temp -> longest_run P (Z.max best temp) ->
  let '(b, t) := best_scan (prev * msPerDay) (map (fun z => z * msPerDay) l) best temp in
  longest_run (P ++ l) (Z.max b t).
Proof.
  induction l as [|x l IH]; intros P prev best temp Hl Hs Hr; simpl.
  - by rewrite app_nil_r.
  - rewrite diff_days.
    pose proof (suffix_step P prev temp x Hl Hs) as Hs'.
    pose proof (seg_step _ _ _ _ Hr Hs') as Hr'.
    assert (Hl' : last (P ++ [x]) = Some x) by by rewrite last_snoc.
    replace (P ++ x :: l) with ((P ++ [x]) ++ l) by by rewrite <- app_assoc.
    destruct (Z.eqb_spec (x - prev) 1).
    + rewrite bool_decide_true in Hs', Hr' by lia.
      apply IH; [done|done|]. by replace (Z.max best (temp + 1))
        with (Z.max (Z.max best temp) (temp + 1)) by lia.
    + rewrite bool_decide_false in Hs', Hr' by lia.
      by apply IH.
Qed.

Lemma Sorted_weaken {A} (R R' : relation A) l :
  (forall a b, R a b -> R' a b) -> Sorted R l -> Sorted R' l.
Proof.
  intros HR Hs. induction Hs as [|x l Hs IH Hh]; constructor; [done|].
  destruct Hh; constructor; auto.
Qed.

Lemma Sorted_scale s : Sorted Z.le s -> Sorted Z.le (map (fun z => z * msPerDay) s).
Proof.
  intros Hs. induction Hs as [|x l Hs IH Hh]; simpl; constructor; [done|].
  destruct Hh; simpl; constructor. unfold msPerDay. nia.
Qed.

Lemma day_numbers_sorted A s :
  s ≡ₚ map days_from_civil A -> Sorted Z.le s ->
  sort_by Z.ltb (map parse_date_key (sort_by key_ltb A)) = map (fun z => z * msPerDay) s.
Proof.
  intros HP Hs. apply (Sorted_unique_strong Z.le).
  - intros x y _ _ ? ?. lia.
  - eapply Sorted_weaken; [|apply sort_by_sorted, Z_ltb_asym].
    intros a b H. apply Z.ltb_ge in H. lia.
  - by apply Sorted_scale.
  - rewrite (sort_by_perm Z.ltb). rewrite (sort_by_perm key_ltb).
    rewrite HP, map_map. done.
Qed.

(** C2: with an empty log both streaks are 0; otherwise, for the log's
    day numbers sorted ascending, the best streak is the larger of the
    longest run of consecutive days and the current streak.  With opens on
    2024-01-01 and 2024-01-03 and today 2024-01-03, both streaks are 1, in
    every fixed-offset zone and in the US Eastern zone. *)
Theorem best_streak_longest_run (tz : TimeZone) (now : Z) (d : Ledger) :
  (appOpens d = [] ->
     currentStreak (updateStreak tz now d) = 0 /\ bestStreak (updateStreak tz now d) = 0) /\
  (forall s : list Z, s ≡ₚ map days_from_civil (appOpens d) -> Sorted Z.le s ->
     appOpens d <> [] ->
     exists n, longest_run s n /\
       bestStreak (updateStreak tz now d) = Z.max n (currentStreak (updateStreak tz now d))) /\
  (forall (o now' : Z), getTodayDate now' = (2024, 1, 3) ->
     let st := log_with [(2024, 1, 1); (2024, 1, 3)] in
     currentStreak (updateStreak (fixed_zone o) now' st) = 1 /\
     bestStreak (updateStreak (fixed_zone o) now' st) = 1) /\
  (forall now' : Z, getTodayDate now' = (2024, 1, 3) ->
     let st := log_with [(2024, 1, 1); (2024, 1, 3)] in
     currentStreak (updateStreak us_eastern now' st) = 1 /\
     bestStreak (updateStreak us_eastern now' st) = 1).
Proof.
  split_and!.
  - intros E. unfold updateStreak. by rewrite E.
  - intros s HP Hs Hne. destruct (appOpens d) as [|a l] eqn:E; [done|].
    rewrite (updateStreak_nonempty _ _ _ _ _ E). cbn [bestStreak currentStreak set_streaks].
    rewrite (day_numbers_sorted (a :: l) s HP Hs).
    destruct s as [|x rest]; [by apply Permutation_nil in HP|]. simpl.
    set (cur := current_streak tz now _).
    pose proof (best_scan_run rest [x] x 0 1 eq_refl) as Hscan.
    destruct (best_scan (x * msPerDay) (map (fun z => z * msPerDay) rest) 0 1) as [b t].
    exists (Z.max b t). split; [|lia]. apply Hscan.
    + split; [by exists [], [x]|]. intros a' b' E' _.
      apply (f_equal length) in E'. rewrite length_app in E'. simpl in *. lia.
    + split; [by exists [], [x], []|]. intros a' b' c' E' _.
      apply (f_equal length) in E'. rewrite !length_app in E'. simpl in *. lia.
  - intros o now' H st. unfold updateStreak, current_streak. simpl appOpens.
    change (iso_date_key now') with (getTodayDate now'). rewrite H.
    rewrite prev_day_fixed. vm_compute. split; reflexivity.
  - intros now' H st. unfold updateStreak, current_streak. simpl appOpens.
    change (iso_date_key now') with (getTodayDate now'). rewrite H.
    vm_compute. split; reflexivity.
Qed.

(** ** C9: the app-open log has no duplicates *)

Section Invariant.
Variable tz : TimeZone.
Variable fits : Ledger -> bool.

Lemma saveData_cases (P : Ledger -> Prop) d st : P st -> P d -> P (saveData fits d st).
Proof. unfold saveData. by destruct (fits d). Qed.

Lemma updateStreak_appOpens_perm now d : appOpens (updateStreak tz now d) ≡ₚ appOpens d.
Proof.
  unfold updateStreak. destruct (appOpens d) as [|a l] eqn:E; simpl; [done|].
  apply (sort_by_perm key_ltb (a :: l)).
Qed.

Lemma step_preserves_nodup st st' :
  step tz fits st st' -> NoDup (appOpens st) -> NoDup (appOpens st').
Proof.
  intros Hs Hn. destruct Hs as [now st|now st|name st|confirmed name st|now name st|st].
  - unfold trackAppOpen. destruct (includes (appOpens st) (getTodayDate now)) eqn:Ei; [done|].
    apply saveData_cases; [done|]. simpl.
    rewrite updateStreak_appOpens_perm. simpl.
    apply NoDup_app. split; [done|]. split; [|apply NoDup_singleton].
    intros x Hx Hx'. apply list_elem_of_singleton in Hx'. subst.
    apply includes_spec in Hx. congruence.
  - unfold checkDailyReset. case_bool_decide; [done|]. by apply saveData_cases.
  - unfold addActivity. destruct (addActivity_outcome name st) eqn:Eo; [done|].
    apply saveData_cases; [done|].
    unfold addActivity_outcome in Eo.
    destruct (validateActivityName name); [|done].
    destruct (str_includes _ _); [done|]. destruct (50 <=? _)%nat; [done|].
    injection Eo as <-. done.
  - unfold deleteActivity. destruct confirmed; simpl; [|done]. by apply saveData_cases.
  - unfold toggleActivity. by apply saveData_cases.
  - unfold toggleTheme. by apply saveData_cases.
Qed.

(** C9: in every reachable ledger the app-open log lists each date at most
    once, and recording an app open on a date already in the log changes
    nothing (log, cached streaks and every other field). *)
Theorem appOpens_no_duplicates (st : Ledger) :
  reachable tz fits st ->
  NoDup (appOpens st) /\
  (forall now : Z, includes (appOpens st) (getTodayDate now) = true ->
     trackAppOpen tz fits now st = st).
Proof.
  intros Hr. split.
  - induction Hr as [now|st st' _ IH Hs].
    + simpl. constructor.
    + by eapply step_preserves_nodup.
  - intros now Hin. unfold trackAppOpen. by rewrite Hin.
Qed.

End Invariant.

Lemma appOpens_no_duplicates_witness :
  let st := trackAppOpen (fixed_zone 0) (fun _ => true) 0 (initializeData 0) in
  reachable (fixed_zone 0) (fun _ => true) st /\
  (NoDup (appOpens st) /\
   (forall now : Z, includes (appOpens st) (getTodayDate now) = true ->
      trackAppOpen (fixed_zone 0) (fun _ => true) now st = st)).
Proof.
  intros st.
  assert (Hr : reachable (fixed_zone 0) (fun _ => true) st).
  { eapply reach_step; [apply (reach_init _ _ 0)|]. apply step_track. }
  split; [exact Hr|]. exact (appOpens_no_duplicates (fixed_zone 0) (fun _ => true) st Hr).
Defined.

(** ** The US Eastern model against the 2024 calendar *)

(** Daylight saving time in 2024 ran from Sunday 10 March to Sunday 3
    November. *)
Example us_eastern_2024 :
  civil_from_days (dst_start_day 2024) = (2024, 3, 10) /\
  civil_from_days (dst_end_day 2024) = (2024, 11, 3) /\
  tz_offset_utc us_eastern (utc_time (2024, 7, 1) 12) = -4 * msPerHour /\
  tz_offset_utc us_eastern (utc_time (2024, 11, 4) 0) = -5 * msPerHour.
Proof. vm_compute. repeat split. Qed.

(** ** C1: the backward walk across a daylight-saving change *)

(** C1 (the code misses the claim): with the clock at 2024-11-04 12:00 UTC
    and app opens on 2024-11-02, 11-03 and 11-04, the run ending today has
    three days; in a UTC zone the code finds 3, but in the US Eastern zone
    the first [setDate(getDate() - 1)] step goes from 2024-11-04 00:00 UTC
    (19:00 local on 11-03, after the end of daylight saving time) to 19:00
    local on 11-02, which is 23:00 UTC on 11-02: the walk skips 11-03 and
    the current streak is 2. *)
Theorem current_streak_dst_skip :
  let st := log_with [(2024, 11, 2); (2024, 11, 3); (2024, 11, 4)] in
  let now := utc_time (2024, 11, 4) 12 in
  getTodayDate now = (2024, 11, 4) /\
  currentStreak (updateStreak (fixed_zone 0) now st) = 3 /\
  currentStreak (updateStreak us_eastern now st) = 2 /\
  bestStreak (updateStreak us_eastern now st) = 3 /\
  iso_date_key (prev_day us_eastern (parse_date_key (2024, 11, 4))) = (2024, 11, 2).
Proof. vm_compute. repeat split. Qed.

(** ** C8: date keys are UTC dates *)

(** C8 (the code misses the claim): in a zone one hour east of UTC (Central
    European winter time), on 2024-01-15 at 12:00 UTC the monthly range
    starts with 2023-12-31 and stops at 2024-01-30, since each local
    midnight is 23:00 UTC of the day before; at 23:00 UTC, already
    2024-01-16 on the local clock, today's key is still 2024-01-15 and the
    weekly range ends on 2024-01-15. *)
Theorem date_keys_are_utc :
  let tz := fixed_zone msPerHour in
  let noon := utc_time (2024, 1, 15) 12 in
  let late := utc_time (2024, 1, 15) 23 in
  local_date tz noon = (2024, 1, 15) /\
  head (getMonthDates tz noon) = Some (2023, 12, 31) /\
  last (getMonthDates tz noon) = Some (2024, 1, 30) /\
  length (getMonthDates tz noon) = 31%nat /\
  local_date tz late = (2024, 1, 16) /\
  getTodayDate late = (2024, 1, 15) /\
  last (getWeekDates tz late) = Some (2024, 1, 15).
Proof. vm_compute. repeat split. Qed.

(** ** C10: toggling a name inherited from Object.prototype *)

(** C10 (the code misses the claim): an untracked activity named
    [toString] reads as the inherited function, which is truthy, so the
    first toggle stores [false] and the second [true]; an ordinary name
    such as [Gym] gets [true] and then [false]. *)
Theorem toggle_inherited_name :
  let now := utc_time (2024, 1, 1) 12 in
  let st := initializeData 0 in
  let once := fun n => toggleActivity_data now n st in
  let twice := fun n => toggleActivity_data now n (once n) in
  dailyData st !! (2024, 1, 1) = None /\
  record_at (once (js "toString")) (2024, 1, 1) !! js "toString" = Some false /\
  record_at (twice (js "toString")) (2024, 1, 1) !! js "toString" = Some true /\
  record_at (once (js "Gym")) (2024, 1, 1) !! js "Gym" = Some true /\
  record_at (twice (js "Gym")) (2024, 1, 1) !! js "Gym" = Some false.
Proof. vm_compute. repeat split. Qed.

(** ** C3: a name inherited from Object.prototype counts as tracked *)

(** C3 (the code misses the claim): with activities [Gym] and
    [constructor], a record only on 2024-01-01 ([Gym] done) and the range
    2024-01-01, 2024-01-02, only the first date has a tracked activity and
    the mean over it is 50; the code also counts the untouched second date
    (the inherited [constructor] is not undefined) and reports 25. *)
Theorem success_counts_inherited_key :
  dailyData two_activity_ledger !! (2024, 1, 2) = None /\
  calculateSuccessPercentage two_activity_ledger [(2024, 1, 1); (2024, 1, 2)] = mkStats 0 25 /\
  calculateSuccessPercentage two_activity_ledger [(2024, 1, 1)] = mkStats 0 50.
Proof. vm_compute. repeat split. Qed.

(** ** Membership helpers *)

Lemma existsb_eq_spec {A} `{EqDecision A} (l : list A) (x : A) :
  existsb (fun a => bool_decide (a = x)) l = true <-> x ∈ l.
Proof.
  rewrite existsb_exists, list_elem_of_In. split.
  - intros [a [Ha E]]. apply bool_decide_eq_true in E. by subst.
  - intros H. exists x. split; [done|]. by apply bool_decide_eq_true.
Qed.

Lemma str_includes_spec l s : str_includes l s = true <-> s ∈ l.
Proof. apply existsb_eq_spec. Qed.

(** ** C4: addActivity and sanitizeInput *)


Lemma sanitizeInput_id (s : jsstr) : sanitizeInput s = s.
Proof.
  unfold sanitizeInput, innerText, textContent, set_textContent, js_or; simpl.
  destruct s as [|c s]; [reflexivity|]. simpl.
  by rewrite app_nil_r.
Qed.

Lemma validateActivityName_trim (raw : jsstr) :
  validateActivityName raw =
  if (length (trim raw) =? 0)%nat || (100 <? length (trim raw))%nat then None
  else Some (trim raw).
Proof.
  unfold validateActivityName. rewrite sanitizeInput_id.
  case_bool_decide as E; [|done]. subst. done.
Qed.

(** C4 (the code misses the claim): [sanitizeInput] is meant to escape
    HTML, but it writes [div.textContent] and reads [div.textContent] back
    (the escaping idiom reads [innerHTML]), so it returns its input
    unchanged.  A raw name of 99 [<] is over 100 characters once
    HTML-escaped, where the claim expects [InvalidName], but the code
    accepts it as it is and appends it. *)
Theorem addActivity_no_html_escape :
  let raw := repeat 60 99%nat in
  sanitizeInput raw = raw /\
  (100 <? length (spec_sanitize raw))%nat = true /\
  addActivity_outcome raw (initializeData 0) =
    AddSaved (with_activities (initializeData 0) [raw]).
Proof. vm_compute. split_and!; reflexivity. Qed.

(** X16: [addActivity(name)] as the code runs it: [sanitizeInput]
    returns its argument, so the checked name is the trimmed input; it is
    rejected as invalid when empty or longer than 100 code units, then as
    a duplicate when already listed, then when 50 or more activities are
    listed; a rejection leaves the stored ledger as it was, and an
    accepted name is appended at the end and handed to [saveData]. *)
Theorem addActivity_spec (fits : Ledger -> bool) (raw : jsstr) (st : Ledger) :
  let name := trim raw in
  let valid := (1 <= length name <= 100)%nat in
  sanitizeInput raw = raw /\
  (~ valid -> addActivity_outcome raw st = AddFailed InvalidName) /\
  (valid -> name ∈ activities st -> addActivity_outcome raw st = AddFailed DuplicateName) /\
  (valid -> name ∉ activities st -> (50 <= length (activities st))%nat ->
     addActivity_outcome raw st = AddFailed LimitExceeded) /\
  (valid -> name ∉ activities st -> (length (activities st) < 50)%nat ->
     addActivity_outcome raw st = AddSaved (with_activities st (activities st ++ [name])) /\
     addActivity fits raw st = saveData fits (with_activities st (activities st ++ [name])) st) /\
  (forall e, addActivity_outcome raw st = AddFailed e -> addActivity fits raw st = st).
Proof.
  intros name valid. unfold addActivity_outcome.
  rewrite validateActivityName_trim. fold name.
  assert (Hv : (length name =? 0)%nat || (100 <? length name)%nat = false <-> valid).
  { unfold valid. rewrite orb_false_iff, Nat.eqb_neq, Nat.ltb_ge. lia. }
  split; [apply sanitizeInput_id|].
  split; [|split; [|split; [|split]]].
  - intros Hn. destruct ((length name =? 0)%nat || (100 <? length name)%nat) eqn:E; [done|].
    exfalso. by apply Hn, Hv.
  - intros Hval Hin. apply Hv in Hval. rewrite Hval.
    by rewrite (proj2 (str_includes_spec _ _) Hin).
  - intros Hval Hin Hlen. apply Hv in Hval. rewrite Hval.
    destruct (str_includes (activities st) name) eqn:Ei.
    + apply str_includes_spec in Ei. done.
    + apply Nat.leb_le in Hlen. by rewrite Hlen.
  - intros Hval Hin Hlen. apply Hv in Hval. rewrite Hval.
    destruct (str_includes (activities st) name) eqn:Ei.
    + apply str_includes_spec in Ei. done.
    + assert (E50 : (50 <=? length (activities st))%nat = false) by (apply Nat.leb_gt; lia).
      rewrite E50. split; [done|].
      unfold addActivity, addActivity_outcome. rewrite validateActivityName_trim. fold name.
      by rewrite Hval, Ei, E50.
  - intros e He. unfold addActivity. unfold addActivity_outcome.
    rewrite validateActivityName_trim. fold name.
    destruct (_ || _); [done|].
    destruct (str_includes _ _); [done|]. destruct (50 <=? _)%nat; done.
Qed.

Lemma proto_undefined_not_proto name : proto_prop name = VUndefined -> name <> js "__proto__".
Proof. unfold proto_prop. intros H ->. rewrite bool_decide_true in H; done. Qed.

Lemma set_prop_ordinary r name b :
  proto_prop name = VUndefined -> set_prop r name b = <[name := b]> r.
Proof.
  intros H. unfold set_prop. apply proto_undefined_not_proto in H.
  by rewrite bool_decide_false.
Qed.

Lemma get_prop_ordinary r name :
  proto_prop name = VUndefined -> get_prop r name = match r !! name with Some b => VBool b | None => VUndefined end.
Proof. unfold get_prop. intros H. by destruct (r !! name). Qed.

Lemma set_prop_lookup_ne r name name' b :
  name' <> name -> set_prop r name b !! name' = r !! name'.
Proof. intros H. unfold set_prop. case_match; [done|]. by rewrite lookup_insert_ne by congruence. Qed.

Lemma toggle_today_record now name st :
  dailyData (toggleActivity_data now name st) !! getTodayDate now =
  Some (set_prop (record_at st (getTodayDate now)) name
          (negb (truthy (get_prop (record_at st (getTodayDate now)) name)))).
Proof.
  unfold toggleActivity_data, record_at. simpl. rewrite lookup_insert_eq.
  by destruct (dailyData st !! getTodayDate now).
Qed.

(** ** C5: toggleActivity does not check the activity list *)




(** ** C6: deleteActivity *)

Lemma purge_lookup (name : jsstr) (dd : gmap DateKey (gmap jsstr bool)) (date : DateKey) :
  ((fun r : gmap jsstr bool =>
      if negb (is_undefined (get_prop r name)) then delete name r else r) <$> dd) !! date =
  delete name <$> dd !! date.
Proof.
  rewrite lookup_fmap. destruct (dd !! date) as [r|]; simpl; [|done]. f_equal.
  unfold get_prop. destruct (r !! name) eqn:E; simpl; [done|].
  destruct (proto_prop name); simpl; try done. by rewrite delete_id.
Qed.

Lemma filter_ne_notin (name : jsstr) (l : list jsstr) :
  name ∉ l -> filter (fun a => a ≠ name) l = l.
Proof.
  induction l as [|a l IH]; intros Hn; [done|].
  rewrite filter_cons_True.
  - f_equal. apply IH. intros H. apply Hn. by right.
  - intros ->. apply Hn. by left.
Qed.

Lemma filter_ne_removes (name : jsstr) (l : list jsstr) :
  name ∉ filter (fun a => a ≠ name) l.
Proof. rewrite list_elem_of_filter. naive_solver. Qed.

Lemma addActivity_saved_shape (raw : jsstr) (st st1 : Ledger) :
  addActivity_outcome raw st = AddSaved st1 ->
  exists name, validateActivityName raw = Some name /\ (name ∉ activities st) /\
               st1 = with_activities st (activities st ++ [name]).
Proof.
  unfold addActivity_outcome. destruct (validateActivityName raw) as [name|]; [|done].
  destruct (str_includes (activities st) name) eqn:Ei; [done|].
  destruct (50 <=? _)%nat; [done|]. intros [= <-].
  exists name. split; [done|]. split; [|done].
  intros Hin. apply str_includes_spec in Hin. congruence.
Qed.

(** C6, as the code has it: when the user answers the [confirm] prompt
    with Cancel, [deleteActivity] returns before touching the ledger, so
    the activity stays listed. *)
Lemma delete_declined_keeps_activity :
  let st := with_activities (initializeData 0) [js "Gym"] in
  js "Gym" ∈ activities (deleteActivity (fun _ => true) false (js "Gym") st).
Proof. simpl. by left. Qed.

(** C6 (amended): a declined [confirm] changes nothing; a confirmed
    deletion (the ledger handed to [saveData]) filters every occurrence of
    the name out of the list and deletes the key from every day's record,
    keeping the rest of each record; it keeps the list as it is when the
    name is not listed; and after a successful [addActivity(raw)], a
    confirmed deletion of the stored (trimmed) name gives back the
    original list and the original records on every other key. *)
Theorem deleteActivity_spec (fits : Ledger -> bool) (name : jsstr) (st : Ledger) :
  deleteActivity fits false name st = st /\
  deleteActivity fits true name st = saveData fits (deleteActivity_data name st) st /\
  activities (deleteActivity_data name st) = filter (fun a => a ≠ name) (activities st) /\
  (name ∉ activities (deleteActivity_data name st)) /\
  (name ∉ activities st -> activities (deleteActivity_data name st) = activities st) /\
  (forall date, dailyData (deleteActivity_data name st) !! date = delete name <$> dailyData st !! date) /\
  (forall date r, dailyData (deleteActivity_data name st) !! date = Some r -> r !! name = None) /\
  (forall (raw : jsstr) (st0 : Ledger),
     addActivity_outcome raw st0 = AddSaved st -> validateActivityName raw = Some name ->
     activities (deleteActivity_data name st) = activities st0 /\
     forall date k, k <> name ->
       (dailyData (deleteActivity_data name st) !! date ≫= fun r => r !! k) =
       (dailyData st0 !! date ≫= fun r => r !! k)).
Proof.
  split; [done|]. split; [done|]. split; [done|].
  split; [apply filter_ne_removes|].
  split; [intros Hn; apply filter_ne_notin, Hn|].
  split; [intros date; apply purge_lookup|].
  split.
  { intros date r. simpl. rewrite purge_lookup.
    destruct (dailyData st !! date); simpl; [|done]. intros [= <-]. apply lookup_delete_eq. }
  intros raw st0 Hadd Hv.
  destruct (addActivity_saved_shape raw st0 st Hadd) as (name' & Hv' & Hn & ->).
  rewrite Hv in Hv'. injection Hv' as <-.
  split.
  - simpl. rewrite filter_app, filter_ne_notin by done.
    rewrite filter_cons_False by (intros H; by apply H). apply app_nil_r.
  - intros date k Hk. simpl. rewrite purge_lookup. simpl.
    destruct (dailyData st0 !! date); simpl; [|done].
    by rewrite lookup_delete_ne.
Qed.

(** * More of the page script *)

Lemma fold_count {A} (f : A -> bool) (l : list A) (c0 : Z) :
  fold_left (fun c a => if f a then c + 1 else c) l c0 = c0 + Z.of_nat (length (List.filter f l)).
Proof.
  revert c0. induction l as [|a l IH]; intros c0; simpl; [lia|].
  rewrite IH. cbn [List.filter]. destruct (f a); simpl; lia.
Qed.

Lemma day_scan_spec acts r :
  day_scan acts r =
  (Z.of_nat (length (List.filter (fun a => is_true (get_prop r a)) acts)),
   existsb (fun a => negb (is_undefined (get_prop r a))) acts).
Proof.
  unfold day_scan.
  assert (H : forall c h, fold_left (fun acc activity =>
               let '(dayCompleted, hasData) := acc in
               (if is_true (get_prop r activity) then dayCompleted + 1 else dayCompleted,
                if negb (is_undefined (get_prop r activity)) then true else hasData)) acts (c, h) =
     (c + Z.of_nat (length (List.filter (fun a => is_true (get_prop r a)) acts)),
      h || existsb (fun a => negb (is_undefined (get_prop r a))) acts)).
  { induction acts as [|a l IH]; intros c h; simpl.
    - f_equal; [lia|]. by destruct h.
    - rewrite IH. cbn [List.filter]. f_equal.
      + destruct (is_true _); simpl; lia.
      + destruct (negb _), h; simpl; try done; by rewrite ?orb_true_r. }
  rewrite H. f_equal.
Qed.

Lemma is_true_get_prop r a : is_true (get_prop r a) = true <-> r !! a = Some true.
Proof.
  unfold get_prop, proto_prop. destruct (r !! a) as [[]|]; simpl; try done.
  repeat case_match; done.
Qed.

Lemma math_round_frac c p :
  math_round (inject_Z c / inject_Z (Zpos p) * 100)%Q = (200 * c + Zpos p) / (2 * Zpos p).
Proof.
  unfold math_round.
  rewrite (Qfloor_comp _ ((200 * c + Zpos p) # (2 * p))).
  - reflexivity.
  - unfold Qeq. simpl. rewrite ?Pos2Z.inj_mul. lia.
Qed.

Lemma filter_length_full {A} (f : A -> bool) (l : list A) :
  (length (List.filter f l) <= length l)%nat /\
  (length (List.filter f l) = length l <-> forall a, a ∈ l -> f a = true).
Proof.
  induction l as [|a l [IHle IHeq]]; simpl.
  - split; [lia|]. split; [|done]. intros _ a Ha. by apply not_elem_of_nil in Ha.
  - cbn [List.filter]. destruct (f a) eqn:Ef; simpl.
    + split; [lia|]. split.
      * intros H b Hb. apply elem_of_cons in Hb as [->|Hb]; [done|]. apply IHeq; [lia|done].
      * intros H. f_equal. apply IHeq. intros b Hb. apply H. apply elem_of_cons. by right.
    + split; [lia|]. split; [lia|]. intros H. rewrite H in Ef; [done|]. apply elem_of_cons. by left.
Qed.

Lemma progress_count now st :
  activities st <> [] ->
  exists p : positive,
    Z.of_nat (length (activities st)) = Zpos p /\
    calculateProgress now st =
    (200 * Z.of_nat (length (List.filter (fun a => is_true (get_prop (record_at st (getTodayDate now)) a))
                                   (activities st))) + Zpos p) / (2 * Zpos p).
Proof.
  intros Hne. unfold calculateProgress, record_at.
  destruct (activities st) as [|a l] eqn:E; [done|].
  exists (Pos.of_succ_nat (length l)). split; [simpl; lia|].
  simpl length. cbn zeta. rewrite fold_count.
  replace (Z.of_nat (S (length l))) with (Zpos (Pos.of_succ_nat (length l))) by lia.
  rewrite math_round_frac. by destruct (dailyData st !! getTodayDate now).
Qed.

(** X1: [calculateProgress()], the progress bar: the percentage is between 0
    and 100; it is 0 when there is no activity; it is 100 when every
    activity is marked true in today's record; and, with fewer than 200
    activities, 100 only when every activity is marked true today. *)
Theorem calculateProgress_bounds (now : Z) (st : Ledger) :
  let done_today := fun a => record_at st (getTodayDate now) !! a = Some true in
  0 <= calculateProgress now st <= 100 /\
  (activities st = [] -> calculateProgress now st = 0) /\
  (activities st <> [] -> (forall a, a ∈ activities st -> done_today a) ->
     calculateProgress now st = 100) /\
  ((length (activities st) < 200)%nat -> calculateProgress now st = 100 ->
     forall a, a ∈ activities st -> done_today a).
Proof.
  intros done_today.
  destruct (decide (activities st = [])) as [He|Hne].
  { unfold calculateProgress. rewrite He. simpl. split_and!; try done; try lia. }
  destruct (progress_count now st Hne) as (p & Hp & Hc). rewrite Hc.
  set (r := record_at st (getTodayDate now)) in *.
  destruct (filter_length_full (fun a => is_true (get_prop r a)) (activities st)) as [Hle Heq].
  set (c := length (List.filter _ _)) in *.
  assert (Hall : (c = length (activities st)) <-> forall a, a ∈ activities st -> done_today a).
  { rewrite Heq. split; intros H a Ha; apply is_true_get_prop; by apply H. }
  split_and!.
  - apply Z.div_pos; lia.
  - assert ((200 * Z.of_nat c + Zpos p) / (2 * Zpos p) < 101); [|lia]. apply Z.div_lt_upper_bound; lia.
  - done.
  - intros Hn Ha. apply Hall in Ha.
    assert (Hcp : Z.of_nat c = Zpos p) by lia. rewrite Hcp.
    replace (200 * Zpos p + Zpos p) with (Zpos p + 100 * (2 * Zpos p)) by lia.
    rewrite Z.div_add by lia. rewrite Z.div_small by lia. lia.
  - intros Hn H100. apply Hall.
    destruct (decide (c = length (activities st))) as [|Hlt]; [done|].
    exfalso. assert (Z.of_nat c + 1 <= Zpos p) by lia.
    assert ((200 * Z.of_nat c + Zpos p) / (2 * Zpos p) < 100); [|lia].
    apply Z.div_lt_upper_bound; lia.
Qed.

(** X2: [toggleActivity] read back with [getActivityStatus]: for a name not
    inherited from [Object.prototype] the status goes from [b] to [!b];
    the status of every other such name is unchanged; an inherited name
    with no own key in today's record (such as [constructor]) reads as a
    function once the record exists; records of other dates are
    unchanged. *)
Theorem toggle_flips_status (now : Z) (name : jsstr) (st : Ledger) :
  let st' := toggleActivity_data now name st in
  (proto_prop name = VUndefined ->
     exists b, getActivityStatus now name st = VBool b /\
               getActivityStatus now name st' = VBool (negb b)) /\
  (forall name', name' <> name -> proto_prop name' = VUndefined ->
     getActivityStatus now name' st' = getActivityStatus now name' st) /\
  (forall name', proto_prop name' = VFunction ->
     record_at st (getTodayDate now) !! name' = None -> name' <> name ->
     getActivityStatus now name' st' = VFunction) /\
  (forall date, date <> getTodayDate now -> dailyData st' !! date = dailyData st !! date).
Proof.
  intros st'. unfold st', getActivityStatus, toggleActivity_data, record_at. cbn [dailyData with_dailyData].
  set (today := getTodayDate now).
  set (r0 := match dailyData st !! today with Some r => r | None => ∅ end).
  split_and!.
  - intros Hn. rewrite lookup_insert_eq, set_prop_ordinary by done.
    rewrite (get_prop_ordinary _ name Hn), lookup_insert_eq.
    destruct (dailyData st !! today) as [r|] eqn:Er; subst r0; try rewrite Er.
    + rewrite get_prop_ordinary by done. destruct (r !! name) as [b|]; simpl.
      * exists b. destruct b; done.
      * exists false. done.
    + rewrite get_prop_ordinary by done. rewrite lookup_empty. exists false. done.
  - intros name' Hne Hn'. rewrite lookup_insert_eq.
    rewrite !(get_prop_ordinary _ name' Hn'), set_prop_lookup_ne by done.
    subst r0. destruct (dailyData st !! today); [by rewrite (get_prop_ordinary _ name' Hn')|by rewrite lookup_empty].
  - intros name' Hf Hnone Hne. rewrite lookup_insert_eq.
    assert (Hr0 : r0 !! name' = None) by (subst r0; by destruct (dailyData st !! today)).
    unfold get_prop. rewrite set_prop_lookup_ne by done. rewrite Hr0, Hf. done.
  - intros date Hd. by rewrite lookup_insert_ne by congruence.
Qed.

Lemma filter_length_zero {A} (f : A -> bool) (l : list A) :
  length (List.filter f l) = 0%nat <-> forall a, a ∈ l -> f a = false.
Proof.
  induction l as [|a l IH]; simpl.
  - split; [|done]. intros _ a Ha. by apply not_elem_of_nil in Ha.
  - cbn [List.filter]. destruct (f a) eqn:Ef; simpl.
    + split; [done|]. intros H. rewrite H in Ef; [done|]. apply elem_of_cons. by left.
    + rewrite IH. split.
      * intros H b Hb. apply elem_of_cons in Hb as [->|Hb]; [done|]. by apply H.
      * intros H b Hb. apply H. apply elem_of_cons. by right.
Qed.

Lemma pct_q c p : (inject_Z c / inject_Z (Zpos p) * 100 == (c * 100) # p)%Q.
Proof. unfold Qeq. simpl. rewrite ?Pos2Z.inj_mul. lia. Qed.

Lemma is_undefined_get_prop r a : is_undefined (get_prop r a) = false <-> get_prop r a <> VUndefined.
Proof. destruct (get_prop r a); simpl; split; congruence. Qed.

(** X4: One day of [generateCalendar]: without activities the cell gets no
    colour and no percentage; otherwise it is marked completed exactly
    when every activity is marked true, partial exactly when some are and
    some are not, empty exactly when none is but some activity name reads
    as defined in the record (inherited names included), and its
    percentage reads [-] exactly when no activity name reads as defined. *)
Theorem calendar_day_cell_marks (acts : list jsstr) (r : gmap jsstr bool) :
  let done_ := fun a => r !! a = Some true in
  let seen := fun a => get_prop r a <> VUndefined in
  (acts = [] -> calendar_day_cell acts r = (None, None)) /\
  (acts <> [] ->
     (fst (calendar_day_cell acts r) = Some MarkCompleted <-> forall a, a ∈ acts -> done_ a) /\
     (fst (calendar_day_cell acts r) = Some MarkPartial <->
        (exists a, a ∈ acts /\ done_ a) /\ (exists a, a ∈ acts /\ ~ done_ a)) /\
     (fst (calendar_day_cell acts r) = Some MarkEmpty <->
        (forall a, a ∈ acts -> ~ done_ a) /\ (exists a, a ∈ acts /\ seen a)) /\
     (snd (calendar_day_cell acts r) = Some None <-> forall a, a ∈ acts -> ~ seen a)).
Proof.
  intros done_ seen. split; [intros ->; reflexivity|]. intros Hne.
  unfold calendar_day_cell. destruct acts as [|a0 l] eqn:Ea; [done|]. rewrite <- Ea in *.
  assert (Hlen : Z.of_nat (length acts) = Zpos (Pos.of_succ_nat (length l))) by (subst; simpl; lia).
  replace ((length acts =? 0)%nat) with false by (subst; done).
  rewrite day_scan_spec. rewrite Hlen.
  destruct (filter_length_full (fun a => is_true (get_prop r a)) acts) as [Hle Heq].
  pose proof (filter_length_zero (fun a => is_true (get_prop r a)) acts) as Hz.
  set (c := length (List.filter _ _)) in *.
  set (p := Pos.of_succ_nat (length l)) in *.
  assert (Hdone : forall a, is_true (get_prop r a) = true <-> done_ a) by (intros; apply is_true_get_prop).
  assert (Hseen : existsb (fun a => negb (is_undefined (get_prop r a))) acts = true <->
                  exists a, a ∈ acts /\ seen a).
  { rewrite existsb_exists. setoid_rewrite list_elem_of_In. split.
    - intros (a & Ha & Hu). exists a. split; [done|]. unfold seen.
      apply is_undefined_get_prop. by destruct (is_undefined _).
    - intros (a & Ha & Hs). exists a. split; [done|]. apply is_undefined_get_prop in Hs. by rewrite Hs. }
  assert (Hall : (Z.of_nat c = Zpos p) <-> forall a, a ∈ acts -> done_ a).
  { rewrite <- Hlen. split.
    - intros H a Ha. apply Hdone. apply Heq; [lia|done].
    - intros H. f_equal. apply Heq. intros a Ha. apply Hdone. by apply H. }
  assert (Hnone : (Z.of_nat c = 0) <-> forall a, a ∈ acts -> ~ done_ a).
  { split.
    - intros H a Ha Hd. apply Hdone in Hd. assert (c = 0%nat) by lia.
      rewrite (proj1 Hz) in Hd; [done|done|done].
    - intros H. assert (c = 0%nat); [|lia]. apply Hz. intros a Ha.
      destruct (is_true _) eqn:E; [|done]. exfalso. apply (H a Ha). by apply Hdone. }
  assert (Hcp : Z.of_nat c <= Zpos p) by lia.
  destruct (Qeq_bool _ 100) eqn:E100.
  - apply Qeq_bool_iff in E100. rewrite pct_q in E100. unfold Qeq in E100. simpl in E100.
    assert (Hc : Z.of_nat c = Zpos p) by lia.
    simpl. split_and!.
    + split; [intros _ a Ha; by apply (proj1 Hall Hc)|done].
    + split; [done|]. intros [_ (a & Ha & Hd)]. exfalso. apply Hd. by apply (proj1 Hall Hc).
    + split; [done|]. intros [Hn (a & Ha & _)]. exfalso. apply (Hn a Ha). by apply (proj1 Hall Hc).
    + destruct (existsb _ _) eqn:Ex; simpl.
      * split; [done|]. intros H. destruct (proj1 Hseen eq_refl) as (a & Ha & Hs). exfalso. by apply (H a Ha).
      * split; [intros _ a Ha Hs|done]. assert (Hx : exists a, a ∈ acts /\ seen a) by eauto. apply Hseen in Hx. congruence.
  - apply Qeq_bool_neq in E100. rewrite pct_q in E100. unfold Qeq in E100. simpl in E100.
    assert (Hc : Z.of_nat c < Zpos p) by lia.
    assert (Hnot : ~ forall a, a ∈ acts -> done_ a) by (rewrite <- Hall; lia).
    destruct (Qle_bool _ 0) eqn:E0; destruct (Qle_bool 100 _) eqn:E1; simpl.
    + apply Qle_bool_iff in E1. rewrite pct_q in E1. unfold Qle in E1. simpl in E1. lia.
    + apply Qle_bool_iff in E0. rewrite pct_q in E0. unfold Qle in E0. simpl in E0.
      assert (Hc0 : forall a, a ∈ acts -> ~ done_ a) by (apply Hnone; lia).
      destruct (existsb _ _) eqn:Ex; simpl; split_and!.
      * split; [done|]. intros H. exfalso. by apply Hnot.
      * split; [done|]. intros [(a & Ha & Hd) _]. exfalso. by apply (Hc0 a).
      * split; [intros _|done]. split; [done|]. by apply Hseen.
      * split; [done|]. intros H. destruct (proj1 Hseen eq_refl) as (a & Ha & Hs). exfalso. by apply (H a Ha).
      * split; [done|]. intros H. exfalso. by apply Hnot.
      * split; [done|]. intros [(a & Ha & Hd) _]. exfalso. by apply (Hc0 a).
      * split; [done|]. intros [_ Hx]. apply Hseen in Hx. congruence.
      * split; [intros _ a Ha Hs|done].
        assert (Hx : exists a, a ∈ acts /\ seen a) by eauto. apply Hseen in Hx. congruence.
    + apply Qle_bool_iff in E1. rewrite pct_q in E1. unfold Qle in E1. simpl in E1. lia.
    + assert (Hc0 : 0 < Z.of_nat c).
      { destruct (Z.eq_dec (Z.of_nat c) 0) as [H0|]; [|lia]. exfalso.
        assert (Hq : Qle_bool (inject_Z (Z.of_nat c) / inject_Z (Zpos p) * 100) 0 = true).
        { apply Qle_bool_iff. rewrite pct_q. unfold Qle. simpl. lia. }
        congruence. }
      assert (Hex : exists a, a ∈ acts /\ done_ a).
      { destruct (decide (Forall (fun a => ~ done_ a) acts)) as [HF|HF].
        - exfalso. assert (Z.of_nat c = 0); [|lia]. apply Hnone. by apply Forall_forall.
        - apply not_Forall_Exists in HF; [|apply _]. apply Exists_exists in HF as (a & Ha & Hd).
          exists a. split; [done|]. destruct (decide (done_ a)); [done|]. by exfalso. }
      assert (Hnd : exists a, a ∈ acts /\ ~ done_ a).
      { destruct (decide (Forall done_ acts)) as [HF|HF].
        - exfalso. apply Hnot. by apply Forall_forall.
        - apply not_Forall_Exists in HF; [|apply _]. by apply Exists_exists in HF. }
      assert (Hsn : existsb (fun a => negb (is_undefined (get_prop r a))) acts = true).
      { apply Hseen. destruct Hex as (a & Ha & Hd). exists a. split; [done|].
        unfold seen, get_prop. by rewrite Hd. }
      rewrite Hsn. simpl. split_and!.
      * split; [done|]. intros H. exfalso. by apply Hnot.
      * split; [intros _; done|done].
      * split; [done|]. intros [Hn _]. destruct Hex as (a & Ha & Hd). exfalso. by apply (Hn a).
      * split; [done|]. intros H. destruct Hex as (a & Ha & Hd). exfalso. apply (H a Ha).
        unfold seen, get_prop. by rewrite Hd.
Qed.


(** X5: The day popup ([showDayDetails]) agrees with the calendar and the
    progress bar: the total is the number of activities, the status lines
    list the activities in order, the completed count is the number of
    lines marked completed, a percentage shown in the calendar cell is the
    popup's percentage, and for today the popup's percentage is
    [calculateProgress()]. *)
Theorem day_details_consistent (now : Z) (st : Ledger) (dateStr : DateKey) :
  let r := record_at st dateStr in
  let '(pct, completed, total, statuses) := showDayDetails st dateStr in
  total = Z.of_nat (length (activities st)) /\
  map snd statuses = activities st /\
  completed = Z.of_nat (length (List.filter is_completed_mark statuses)) /\
  (forall q, snd (calendar_day_cell (activities st) r) = Some (Some q) -> q = pct) /\
  (dateStr = getTodayDate now -> pct = calculateProgress now st).
Proof.
  intros r. unfold showDayDetails. rewrite fold_count. cbn zeta.
  fold (record_at st dateStr). fold r.
  replace (match dailyData st !! dateStr with Some r => r | None => ∅ end) with r
    by (unfold r, record_at; by destruct (dailyData st !! dateStr)).
  split_and!.
  - done.
  - rewrite map_map. simpl. apply map_id.
  - rewrite Z.add_0_l. f_equal. induction (activities st) as [|a l IH]; [done|].
    rewrite map_cons. cbn [List.filter]. unfold is_completed_mark at 1. simpl fst.
    destruct (is_true (get_prop r a)); simpl; [by rewrite IH|].
    destruct (negb _); simpl; done.
  - intros q. unfold calendar_day_cell. destruct (activities st) as [|a l] eqn:E; [done|].
    simpl length. cbn iota. rewrite day_scan_spec. cbn zeta.
    destruct (existsb _ _); simpl; [|done].
    intros [= <-]. by rewrite Z.add_0_l.
  - intros ->. unfold calculateProgress. fold r.
    replace (match dailyData st !! getTodayDate now with Some r => r | None => ∅ end) with r
      by (unfold r, record_at; by destruct (dailyData st !! getTodayDate now)).
    rewrite fold_count. destruct (activities st) as [|a l]; [done|].
    simpl length. cbn iota. simpl. by rewrite Z.add_0_l.
Qed.

Lemma progress_all_done now st :
  activities st <> [] ->
  ((forall a, a ∈ activities st -> record_at st (getTodayDate now) !! a = Some true) ->
     calculateProgress now st = 100) /\
  ((length (activities st) < 200)%nat -> calculateProgress now st = 100 ->
     forall a, a ∈ activities st -> record_at st (getTodayDate now) !! a = Some true).
Proof.
  intros Hne. destruct (progress_count now st Hne) as (p & Hp & Hc). rewrite Hc.
  set (r := record_at st (getTodayDate now)) in *.
  destruct (filter_length_full (fun a => is_true (get_prop r a)) (activities st)) as [Hle Heq].
  set (c := length (List.filter _ _)) in *.
  assert (Hall : (c = length (activities st)) <-> forall a, a ∈ activities st -> r !! a = Some true).
  { rewrite Heq. split; intros H a Ha; apply is_true_get_prop; by apply H. }
  split.
  - intros Ha. apply Hall in Ha.
    assert (Hcp : Z.of_nat c = Zpos p) by lia. rewrite Hcp.
    replace (200 * Zpos p + Zpos p) with (Zpos p + 100 * (2 * Zpos p)) by lia.
    rewrite Z.div_add by lia. rewrite Z.div_small by lia. lia.
  - intros Hn H100. apply Hall.
    destruct (decide (c = length (activities st))) as [|Hlt]; [done|].
    exfalso. assert (Z.of_nat c + 1 <= Zpos p) by lia.
    assert ((200 * Z.of_nat c + Zpos p) / (2 * Zpos p) < 100); [|lia].
    apply Z.div_lt_upper_bound; lia.
Qed.

Lemma filter_ext_in {A} (f g : A -> bool) (l : list A) :
  (forall a, a ∈ l -> f a = g a) -> List.filter f l = List.filter g l.
Proof.
  induction l as [|a l IH]; intros H; [done|]. cbn [List.filter].
  rewrite (H a) by (apply elem_of_cons; by left).
  rewrite IH; [done|]. intros b Hb. apply H. apply elem_of_cons. by right.
Qed.

(** X6: [sendDailyReminderNotification()]: nothing without permission; the
    generic reminder when there is no activity; otherwise, when no
    activity name is inherited from [Object.prototype], it reports the
    number of activities not marked true today, or that all are done, and
    (with fewer than 200 activities) it says all are done exactly when
    the progress bar shows 100. *)
Theorem reminder_matches_progress (granted : bool) (now : Z) (st : Ledger) :
  let r := record_at st (getTodayDate now) in
  let not_done := Z.of_nat (length (List.filter (fun a => negb (is_true (get_prop r a))) (activities st))) in
  (granted = false -> sendDailyReminderNotification granted now st = None) /\
  (granted = true -> activities st = [] ->
     sendDailyReminderNotification granted now st = Some ReminderNoActivities) /\
  (granted = true -> activities st <> [] ->
     (forall a, a ∈ activities st -> proto_prop a = VUndefined) ->
     sendDailyReminderNotification granted now st =
       Some (if not_done =? 0 then ReminderAllDone else ReminderIncomplete not_done) /\
     ((length (activities st) < 200)%nat ->
        sendDailyReminderNotification granted now st = Some ReminderAllDone <->
        calculateProgress now st = 100)).
Proof.
  intros r not_done. split_and!.
  - intros ->. done.
  - intros -> He. unfold sendDailyReminderNotification. by rewrite He.
  - intros -> Hne Hord.
    assert (Hsend : sendDailyReminderNotification true now st =
       Some (if not_done =? 0 then ReminderAllDone else ReminderIncomplete not_done)).
    { unfold sendDailyReminderNotification. simpl negb. cbv iota.
      replace ((length (activities st) =? 0)%nat) with false by (destruct (activities st); done).
      rewrite fold_count, Z.add_0_l.
      replace (match dailyData st !! getTodayDate now with Some r => r | None => ∅ end) with r
        by (unfold r, record_at; by destruct (dailyData st !! getTodayDate now)).
      rewrite (filter_ext_in _ (fun a => negb (is_true (get_prop r a)))).
      - change (Z.of_nat (length (List.filter (fun a => negb (is_true (get_prop r a))) (activities st))))
          with not_done.
        assert (Hnn : 0 <= not_done) by (unfold not_done; lia). clearbody not_done.
        destruct (Z.eqb_spec not_done 0) as [H0|H0].
        + subst. done.
        + destruct (Z.ltb_spec 0 not_done); [done|lia].
      - intros a Ha. rewrite get_prop_ordinary by (by apply Hord).
        by destruct (r !! a) as [[]|]. }
    split; [exact Hsend|]. intros Hn. rewrite Hsend.
    destruct (progress_all_done now st Hne) as [Hto Hfrom].
    pose proof (filter_length_zero (fun a => negb (is_true (get_prop r a))) (activities st)) as Hz.
    split.
    + intros H. destruct (Z.eqb_spec not_done 0) as [H0|H0]; [|done].
      apply Hto. intros a Ha. apply is_true_get_prop.
      assert (Hf : negb (is_true (get_prop r a)) = false).
      { apply (proj1 Hz); [|done]. unfold not_done in H0. lia. }
      by destruct (is_true _).
    + intros H. pose proof (Hfrom Hn H) as Hall.
      replace (not_done =? 0) with true; [done|]. symmetry. apply Z.eqb_eq.
      unfold not_done. rewrite (proj2 Hz); [done|].
      intros a Ha. by rewrite (proj2 (is_true_get_prop r a) (Hall a Ha)).
Qed.

(** X7: [scheduleDailyReminder()]: after a call today's key is recorded; the
    first call of a UTC day sends what [sendDailyReminderNotification]
    gives, a call on a day already recorded sends nothing and records
    nothing new, and every later call on the same day sends nothing. *)
Theorem reminder_once_per_day (granted : bool) (now : Z) (st : Ledger) (sent : gset DateKey) :
  let '(shown, sent1) := scheduleDailyReminder granted now st sent in
  getTodayDate now ∈ sent1 /\
  (getTodayDate now ∉ sent -> shown = sendDailyReminderNotification granted now st) /\
  (getTodayDate now ∈ sent -> shown = None /\ sent1 = sent) /\
  (forall granted' now' st', getTodayDate now' = getTodayDate now ->
     scheduleDailyReminder granted' now' st' sent1 = (None, sent1)).
Proof.
  unfold scheduleDailyReminder. case_bool_decide as Hin.
  - split_and!; try done. intros g' n' s' E. rewrite E. by rewrite bool_decide_true.
  - split_and!; [set_solver|done|done|]. intros g' n' s' E. rewrite E.
    rewrite bool_decide_true; [done|set_solver].
Qed.

Lemma drop_spaces_split s :
  exists p, s = p ++ drop_spaces s /\ Forall (fun c => is_js_space c = true) p.
Proof.
  induction s as [|c s IH]; simpl; [by exists []|].
  destruct (is_js_space c) eqn:Ec.
  - destruct IH as (p & Hp & Hf). exists (c :: p). simpl. rewrite <- Hp. split; [done|]. by constructor.
  - by exists [].
Qed.

Lemma drop_spaces_head s :
  drop_spaces s = [] \/ exists c r, drop_spaces s = c :: r /\ is_js_space c = false.
Proof.
  induction s as [|c s IH]; simpl; [by left|].
  destruct (is_js_space c) eqn:Ec; [done|]. right. eauto.
Qed.

Lemma drop_spaces_fixed c r : is_js_space c = false -> drop_spaces (c :: r) = c :: r.
Proof. simpl. by intros ->. Qed.

Lemma drop_spaces_idem s : drop_spaces (drop_spaces s) = drop_spaces s.
Proof.
  destruct (drop_spaces_head s) as [->|(c & r & -> & Hc)]; [done|]. by apply drop_spaces_fixed.
Qed.

Lemma trim_idem s : trim (trim s) = trim s.
Proof.
  unfold trim. set (t := drop_spaces s).
  set (u := drop_spaces (rev t)).
  destruct (drop_spaces_split (rev t)) as (p & Hp & _). fold u in Hp.
  assert (Ht : t = rev u ++ rev p) by (rewrite <- rev_app_distr, <- Hp; by rewrite rev_involutive).
  destruct (rev u) as [|c w] eqn:Eu.
  - simpl. done.
  - assert (Hc : is_js_space c = false).
    { destruct (drop_spaces_head s) as [Hs|(c' & r' & Hs & Hc')]; fold t in Hs.
      - rewrite Hs in Ht. done.
      - rewrite Hs in Ht. simpl in Ht. injection Ht as <- _. done. }
    rewrite drop_spaces_fixed by done. rewrite <- Eu, rev_involutive.
    unfold u. rewrite drop_spaces_idem. done.
Qed.

(** X8: The save button of the add form: a whitespace-only input is ignored,
    any other input is passed to [addActivity] with the same outcome as
    the raw input (the handler's [trim] changes nothing there), and an
    input whose trimmed form has at most 100 characters is never rejected
    as an invalid name. *)
Theorem saveActivityClick_spec (value : jsstr) (st : Ledger) :
  saveActivityClick_outcome value st =
    (if bool_decide (trim value = []) then None else Some (addActivity_outcome value st)) /\
  (trim value <> [] -> (length (trim value) <= 100)%nat ->
     saveActivityClick_outcome value st <> Some (AddFailed InvalidName)).
Proof.
  assert (Heq : trim value <> [] -> addActivity_outcome (trim value) st = addActivity_outcome value st).
  { intros Hne. unfold addActivity_outcome. by rewrite !validateActivityName_trim, trim_idem. }
  unfold saveActivityClick_outcome. split.
  - case_bool_decide as H; [done|]. by rewrite Heq.
  - intros Hne Hlen. rewrite bool_decide_false by done. rewrite Heq by done.
    unfold addActivity_outcome. rewrite validateActivityName_trim.
    assert (Hv : ((length (trim value) =? 0)%nat || (100 <? length (trim value))%nat) = false).
    { apply orb_false_iff. split; [apply Nat.eqb_neq; by destruct (trim value)|apply Nat.ltb_ge; lia]. }
    rewrite Hv. destruct (str_includes _ _); [done|]. destruct (50 <=? _)%nat; done.
Qed.

Lemma updateStreak_lastResetDate tz now d :
  lastResetDate (updateStreak tz now d) = lastResetDate d.
Proof. unfold updateStreak. by destruct (appOpens d). Qed.

Lemma saveData_fits (fits : Ledger -> bool) d st :
  (forall x, fits x = true) -> saveData fits d st = d.
Proof. intros H. unfold saveData. by rewrite H. Qed.

Lemma startup_fields tz fits now st :
  (forall x, fits x = true) ->
  lastResetDate (startup tz fits now st) = getTodayDate now /\
  getTodayDate now ∈ appOpens (startup tz fits now st).
Proof.
  intros Hf. unfold startup, trackAppOpen, checkDailyReset.
  set (today := getTodayDate now).
  assert (Hc : lastResetDate (if bool_decide (lastResetDate st = today) then st
                               else saveData fits (with_lastResetDate st today) st) = today
             /\ appOpens (if bool_decide (lastResetDate st = today) then st
                          else saveData fits (with_lastResetDate st today) st) = appOpens st).
  { case_bool_decide; [done|]. by rewrite saveData_fits. }
  destruct Hc as [Hr Ho].
  set (c := if bool_decide (lastResetDate st = today) then st
            else saveData fits (with_lastResetDate st today) st) in *.
  destruct (includes (appOpens c) today) eqn:Ei.
  - split; [done|]. by apply includes_spec.
  - rewrite saveData_fits by done. simpl. split.
    + by rewrite updateStreak_lastResetDate.
    + rewrite (updateStreak_appOpens_perm tz now). simpl. set_solver.
Qed.

(** X9: Startup ([checkDailyReset(); trackAppOpen();] on DOMContentLoaded),
    when every save fits in storage: afterwards the reset date is today
    and today is in the open log; running startup again on the same
    calendar day, or the throttled minute check [checkNewDay], changes
    nothing. *)
Theorem startup_same_day (tz : TimeZone) (fits : Ledger -> bool) (now now' : Z) (st : Ledger)
  (Hfits : forall x, fits x = true)
  (Hday : getTodayDate now' = getTodayDate now) :
  lastResetDate (startup tz fits now st) = getTodayDate now /\
  getTodayDate now ∈ appOpens (startup tz fits now st) /\
  startup tz fits now' (startup tz fits now st) = startup tz fits now st /\
  checkNewDay tz fits now' (startup tz fits now st) = startup tz fits now st.
Proof.
  destruct (startup_fields tz fits now st Hfits) as [Hr Ho].
  split_and!; [done|done| |].
  - unfold startup at 1, checkDailyReset, trackAppOpen.
    rewrite Hday, bool_decide_true by done.
    by rewrite (proj2 (includes_spec _ _) Ho).
  - unfold checkNewDay. rewrite Hday, bool_decide_false; [done|]. by intros [].
Qed.

Lemma startup_same_day_witness :
  (forall x, (fun _ : Ledger => true) x = true) /\
  getTodayDate 1000 = getTodayDate 5000 /\
  startup (fixed_zone 0) (fun _ => true) 1000 (startup (fixed_zone 0) (fun _ => true) 5000 (initializeData 0)) =
    startup (fixed_zone 0) (fun _ => true) 5000 (initializeData 0).
Proof.
  split; [done|]. split; [reflexivity|].
  apply (startup_same_day (fixed_zone 0) (fun _ => true) 5000 1000 (initializeData 0)); [done|reflexivity].
Defined.

Lemma updateStreak_activities tz now d :
  activities (updateStreak tz now d) = activities d.
Proof. unfold updateStreak. by destruct (appOpens d). Qed.


Lemma step_preserves_acts_ok tz fits st st' :
  step tz fits st st' -> acts_ok (activities st) -> acts_ok (activities st').
Proof.
  intros Hs Hok. destruct Hs as [now st|now st|name st|confirmed name st|now name st|st].
  - unfold trackAppOpen. destruct (includes _ _); [done|].
    apply (saveData_cases fits (fun d => acts_ok (activities d))); [done|]. simpl.
    by rewrite updateStreak_activities.
  - unfold checkDailyReset. case_bool_decide; [done|].
    by apply (saveData_cases fits (fun d => acts_ok (activities d))).
  - unfold addActivity. destruct (addActivity_outcome name st) eqn:Eo; [done|].
    apply (saveData_cases fits (fun d => acts_ok (activities d))); [done|].
    unfold addActivity_outcome in Eo. rewrite validateActivityName_trim in Eo.
    destruct ((length (trim name) =? 0)%nat || (100 <? length (trim name))%nat) eqn:Ev; [done|].
    destruct (str_includes _ _) eqn:Ei; [done|].
    destruct (50 <=? length (activities st))%nat eqn:El; [done|].
    injection Eo as <-. simpl.
    apply orb_false_iff in Ev as [Ev1 Ev2].
    apply Nat.eqb_neq in Ev1. apply Nat.ltb_ge in Ev2. apply Nat.leb_gt in El.
    destruct Hok as (Hn & Hl & Ha). split_and!.
    + apply NoDup_app. split; [done|]. split; [|apply NoDup_singleton].
      intros x Hx Hx'. apply list_elem_of_singleton in Hx'. subst.
      apply str_includes_spec in Hx. congruence.
    + rewrite length_app. simpl. lia.
    + intros a Hin. apply elem_of_app in Hin as [Hin|Hin]; [by apply Ha|].
      apply list_elem_of_singleton in Hin. subst. rewrite trim_idem. split; [done|lia].
  - unfold deleteActivity. destruct confirmed; simpl; [|done].
    apply (saveData_cases fits (fun d => acts_ok (activities d))); [done|]. simpl.
    destruct Hok as (Hn & Hl & Ha). split_and!.
    + by apply NoDup_filter.
    + pose proof (length_filter (fun a => a ≠ name) (activities st)). lia.
    + intros a Hin. apply list_elem_of_filter in Hin as [_ Hin]. by apply Ha.
  - unfold toggleActivity. by apply (saveData_cases fits (fun d => acts_ok (activities d))).
  - unfold toggleTheme. by apply (saveData_cases fits (fun d => acts_ok (activities d))).
Qed.

(** X10: In every reachable ledger the activity list has no duplicates, at
    most 50 entries, and every name is trimmed and 1 to 100 characters
    long. *)
Theorem reachable_activities_ok (tz : TimeZone) (fits : Ledger -> bool) (st : Ledger) :
  reachable tz fits st ->
  NoDup (activities st) /\ (length (activities st) <= 50)%nat /\
  (forall a, a ∈ activities st -> trim a = a /\ (1 <= length a <= 100)%nat).
Proof.
  intros Hr. change (acts_ok (activities st)).
  induction Hr as [now|st st' _ IH Hs].
  - split_and!; [constructor|simpl; lia|intros a Ha; by apply not_elem_of_nil in Ha].
  - by eapply step_preserves_acts_ok.
Qed.

Lemma reachable_activities_ok_witness :
  reachable (fixed_zone 0) (fun _ => true) (addActivity (fun _ => true) [82; 117; 110] (initializeData 0)) /\
  NoDup (activities (addActivity (fun _ => true) [82; 117; 110] (initializeData 0))).
Proof.
  assert (Hr : reachable (fixed_zone 0) (fun _ => true) (addActivity (fun _ => true) [82; 117; 110] (initializeData 0))).
  { eapply reach_step; [apply reach_init|apply step_add]. }
  split; [exact Hr|].
  exact (proj1 (reachable_activities_ok (fixed_zone 0) (fun _ => true) _ Hr)).
Defined.

(** In a zone with a fixed offset, [setDate(getDate() - i)] moves back
    exactly [i] days. *)
Lemma setDate_fixed o t i :
  setDate (fixed_zone o) t (getDate (fixed_zone o) t - i) = t - i * msPerDay.
Proof.
  unfold setDate, getDate, getFullYear, getMonth, local_fields,
    LocalTime, UTC, MakeDate, MakeDay, TimeWithinDay, Day.
  cbn [tz_offset_utc tz_offset_local fixed_zone].
  set (z := (t + o) / msPerDay).
  pose proof (civil_month_range z) as Hm.
  pose proof (days_from_civil_roundtrip z) as Hr.
  destruct (civil_from_days z) as [[y m] dd] eqn:Ec.
  cbn [key_year key_month key_day] in *.
  rewrite (Z.div_small (m - 1) 12) by lia.
  rewrite (Z.mod_small (m - 1) 12) by lia.
  replace (y + 0) with y by lia. replace (m - 1 + 1) with m by lia.
  rewrite days_from_civil_day_shift in Hr.
  assert (Hdm : t + o = msPerDay * z + (t + o) mod msPerDay)
    by (apply Z.div_mod; unfold msPerDay; lia).
  lia.
Qed.

Lemma Day_minus_days t i : Day (t - i * msPerDay) = Day t - i.
Proof.
  unfold Day. replace (t - i * msPerDay) with (t + (- i) * msPerDay) by lia.
  rewrite Z.div_add by (unfold msPerDay; lia). lia.
Qed.

(** X11: [getWeekDates()] in a zone with a fixed offset: the seven consecutive
    UTC calendar dates ending with [getTodayDate()], oldest first, all
    different. *)
Theorem getWeekDates_fixed (o now : Z) :
  getWeekDates (fixed_zone o) now =
    map (fun i => civil_from_days (Day now - i)) [6; 5; 4; 3; 2; 1; 0] /\
  last (getWeekDates (fixed_zone o) now) = Some (getTodayDate now) /\
  NoDup (getWeekDates (fixed_zone o) now).
Proof.
  assert (Hw : getWeekDates (fixed_zone o) now =
    map (fun i => civil_from_days (Day now - i)) [6; 5; 4; 3; 2; 1; 0]).
  { unfold getWeekDates. apply map_ext. intros i.
    by rewrite setDate_fixed, iso_date_key_day, Day_minus_days. }
  split_and!; [done| |].
  - rewrite Hw. simpl. unfold getTodayDate, iso_date_key. by rewrite Z.sub_0_r.
  - rewrite Hw. apply (NoDup_fmap_2_strong (fun i => civil_from_days (Day now - i))).
    + intros a b _ _ E. apply civil_from_days_inj in E. lia.
    + repeat constructor; set_solver.
Qed.

Lemma run_back_zero A z : civil_from_days z ∉ A -> run_back A z 0.
Proof. intros H. split_and!; [lia|lia|]. by rewrite Z.sub_0_r. Qed.

Lemma run_back_pred A z n :
  run_back A z n -> civil_from_days z ∈ A -> 1 <= n /\ run_back A (z - 1) (n - 1).
Proof.
  intros (Hn & Hin & Hout) Hz.
  assert (1 <= n).
  { destruct (Z.eq_dec n 0) as [->|]; [|lia]. rewrite Z.sub_0_r in Hout. done. }
  split; [done|]. split_and!; [lia| |].
  - intros i Hi. replace (z - 1 - i) with (z - (i + 1)) by lia. apply Hin. lia.
  - by replace (z - 1 - (n - 1)) with (z - n) by lia.
Qed.

Lemma run_back_unique A z n m : run_back A z n -> run_back A z m -> n = m.
Proof.
  intros (Hn & Hin & Hout) (Hm & Hin' & Hout').
  destruct (Z.lt_trichotomy n m) as [H|[H|H]]; [|done|].
  - exfalso. apply Hout, Hin'. lia.
  - exfalso. apply Hout', Hin. lia.
Qed.

Lemma run_back_perm A B z n : A ≡ₚ B -> run_back A z n -> run_back B z n.
Proof. intros HP (Hn & Hin & Hout). split_and!; [done| |]; setoid_rewrite <- HP; done. Qed.

(** Every day has a run of logged days ending at it, at most as long as
    the log. *)
Lemma run_back_exists A z : exists n, run_back A z n /\ (Z.to_nat n <= length A)%nat.
Proof.
  assert (Haux : forall m : nat,
    (forall i, 0 <= i < Z.of_nat m -> civil_from_days (z - i) ∈ A) \/
    exists n, run_back A z n /\ n < Z.of_nat m).
  { induction m as [|m IH].
    - left. intros i Hi. lia.
    - destruct IH as [H|(n & Hr & Hlt)]; [|right; exists n; split; [done|lia]].
      destruct (decide (civil_from_days (z - Z.of_nat m) ∈ A)) as [Hm|Hm].
      + left. intros i Hi. destruct (Z.eq_dec i (Z.of_nat m)) as [->|]; [done|].
        apply H. lia.
      + right. exists (Z.of_nat m). split; [|lia]. split_and!; [lia|done|done]. }
  destruct (Haux (S (length A))) as [H|(n & Hr & Hlt)].
  - exfalso.
    set (l := map (fun i : nat => civil_from_days (z - Z.of_nat i)) (seq 0 (S (length A)))).
    assert (Hnd : NoDup l).
    { apply (NoDup_fmap_2_strong (fun i : nat => civil_from_days (z - Z.of_nat i))).
      - intros a b _ _ E. apply civil_from_days_inj in E. lia.
      - apply NoDup_seq. }
    assert (Hinc : incl l A).
    { intros x Hx. apply list_elem_of_In. apply list_elem_of_In in Hx.
      unfold l in Hx. apply list_elem_of_fmap in Hx as (i & -> & Hi).
      apply elem_of_seq in Hi. apply H. lia. }
    pose proof (NoDup_incl_length (proj1 (NoDup_ListNoDup l) Hnd) Hinc) as Hlen.
    unfold l in Hlen. rewrite length_map, length_seq in Hlen. lia.
  - exists n. split; [done|]. destruct Hr as (Hn & _). lia.
Qed.

Lemma count_back_fixed o fuel A z s n :
  run_back A z n -> (Z.to_nat n <= fuel)%nat ->
  count_back (fixed_zone o) fuel A (z * msPerDay) s = s + n.
Proof.
  revert z s n. induction fuel as [|f IH]; intros z s n Hr Hf.
  - destruct Hr as (Hn & _). simpl. lia.
  - simpl. rewrite iso_date_key_day, day_of_day_start.
    destruct (decide (civil_from_days z ∈ A)) as [Hz|Hz].
    + rewrite (proj2 (includes_spec A _) Hz).
      destruct (run_back_pred A z n Hr Hz) as [H1 Hr'].
      rewrite prev_day_fixed, day_start_minus.
      rewrite (IH (z - 1) (s + 1) (n - 1)); [lia|done|lia].
    + destruct (includes A (civil_from_days z)) eqn:Ei.
      { by apply includes_spec in Ei. }
      assert (n = 0); [|lia].
      apply (run_back_unique A z); [done|]. by apply run_back_zero.
Qed.

Lemma current_streak_fixed o now A :
  run_back A (if bool_decide (civil_from_days (Day now) ∈ A) then Day now else Day now - 1)
    (current_streak (fixed_zone o) now A).
Proof.
  unfold current_streak. rewrite parse_iso_date_key, prev_day_fixed, day_start_minus.
  unfold iso_date_key at 1.
  destruct (decide (civil_from_days (Day now) ∈ A)) as [Ht|Ht].
  - rewrite bool_decide_true by done. rewrite (proj2 (includes_spec A _) Ht).
    destruct (run_back_exists A (Day now)) as (n & Hr & Hlen).
    destruct (run_back_pred A _ n Hr Ht) as [H1 Hr'].
    rewrite (count_back_fixed o _ A (Day now - 1) 1 (n - 1)); [|done|lia].
    by replace (1 + (n - 1)) with n by lia.
  - rewrite bool_decide_false by done.
    destruct (includes A (civil_from_days (Day now))) eqn:Ei.
    { by apply includes_spec in Ei. }
    rewrite iso_date_key_day, day_of_day_start.
    destruct (decide (civil_from_days (Day now - 1) ∈ A)) as [Hy|Hy].
    + rewrite (proj2 (includes_spec A _) Hy).
      destruct (run_back_exists A (Day now - 1)) as (n & Hr & Hlen).
      destruct (run_back_pred A _ n Hr Hy) as [H1 Hr'].
      rewrite prev_day_fixed, day_start_minus.
      rewrite (count_back_fixed o _ A (Day now - 1 - 1) 1 (n - 1)); [|done|lia].
      by replace (1 + (n - 1)) with n by lia.
    + destruct (includes A (civil_from_days (Day now - 1))) eqn:Ey.
      { by apply includes_spec in Ey. }
      by apply run_back_zero.
Qed.

(** X13: [updateStreak] in a zone with a fixed offset: the stored current
    streak is the number of consecutive logged days ending today when
    today is logged, and ending yesterday otherwise (0 when neither is
    logged); no other count has that property. *)
Theorem updateStreak_current_fixed (o now : Z) (d : Ledger) :
  run_back (appOpens d)
    (if bool_decide (getTodayDate now ∈ appOpens d) then Day now else Day now - 1)
    (currentStreak (updateStreak (fixed_zone o) now d)) /\
  (forall n, run_back (appOpens d)
      (if bool_decide (getTodayDate now ∈ appOpens d) then Day now else Day now - 1) n ->
    n = currentStreak (updateStreak (fixed_zone o) now d)).
Proof.
  assert (H : run_back (appOpens d)
    (if bool_decide (getTodayDate now ∈ appOpens d) then Day now else Day now - 1)
    (currentStreak (updateStreak (fixed_zone o) now d))).
  { unfold updateStreak. destruct (appOpens d) as [|a l] eqn:Ea.
    - simpl. apply run_back_zero. apply not_elem_of_nil.
    - cbn [currentStreak set_streaks].
      pose proof (sort_by_perm key_ltb (a :: l)) as HP.
      apply (run_back_perm _ _ _ _ HP).
      unfold getTodayDate, iso_date_key.
      rewrite <- (bool_decide_ext _ _ (elem_of_Permutation_proper _ _ _ HP)) at 1.
      apply current_streak_fixed. }
  split; [done|]. intros n Hn. by apply (run_back_unique _ _ _ _ Hn H).
Qed.

Lemma math_round_range (x : Q) : (0 <= x <= 100)%Q -> 0 <= math_round x <= 100.
Proof.
  intros [H0 H1]. unfold math_round. split.
  - pose proof (Qfloor_resp_le (inject_Z 0) (x + (1 # 2))) as H.
    rewrite Qfloor_Z in H. apply H. unfold inject_Z. lra.
  - pose proof (Qfloor_le (x + (1 # 2))) as H.
    assert (Hlt : (inject_Z (Qfloor (x + (1 # 2))) < inject_Z 101)%Q).
    { unfold inject_Z at 2. lra. }
    rewrite <- Zlt_Qlt in Hlt. lia.
Qed.

Lemma day_pct_range acts r p :
  Z.of_nat (length acts) = Zpos p ->
  (0 <= inject_Z (fst (day_scan acts r)) / inject_Z (Z.of_nat (length acts)) * 100 <= 100)%Q.
Proof.
  intros Hp. rewrite Hp, pct_q, day_scan_spec. simpl.
  pose proof (proj1 (filter_length_full (fun a => is_true (get_prop r a)) acts)) as Hle.
  unfold Qle. simpl. lia.
Qed.

(** X14: [calculateSuccessPercentage(dateRange)], behind the weekly and monthly
    statistics: the number of complete days is between 0 and the number
    of dates in the range, and the overall percentage between 0 and 100. *)
Theorem calculateSuccessPercentage_range (d : Ledger) (dateRange : list DateKey) :
  0 <= completedDays (calculateSuccessPercentage d dateRange) <= Z.of_nat (length dateRange) /\
  0 <= overall (calculateSuccessPercentage d dateRange) <= 100.
Proof.
  unfold calculateSuccessPercentage.
  destruct ((length (activities d) =? 0)%nat || (length dateRange =? 0)%nat) eqn:E0;
    [simpl; lia|].
  apply orb_false_iff in E0 as [E0 _]. apply Nat.eqb_neq in E0.
  assert (Hp : exists p, Z.of_nat (length (activities d)) = Zpos p).
  { destruct (Z.of_nat (length (activities d))) as [|p|p] eqn:Ep; [lia|by exists p|lia]. }
  destruct Hp as [p Ep].
  set (f := fun (acc : Z * Z * Q) (date : DateKey) =>
    let '(daysWithData, completed, total) := acc in
    let dayData := match dailyData d !! date with Some r => r | None => ∅ end in
    let '(dayCompleted, hasData) := day_scan (activities d) dayData in
    if hasData then
      let dayPercentage := ((inject_Z dayCompleted / inject_Z (Z.of_nat (length (activities d)))) * 100)%Q in
      (daysWithData + 1, (if Qeq_bool dayPercentage 100%Q then completed + 1 else completed),
       (total + dayPercentage)%Q)
    else (daysWithData, completed, total)).
  set (I := fun (k : Z) (acc : Z * Z * Q) =>
    let '(dw, c, t) := acc in 0 <= c <= dw /\ dw <= k /\ (0 <= t <= 100 * inject_Z dw)%Q).
  assert (Hinv : forall l k acc, I k acc -> I (k + Z.of_nat (length l)) (fold_left f l acc)).
  { induction l as [|date l IH]; intros k acc Hacc; cbn [fold_left length].
    { by rewrite Z.add_0_r. }
    replace (k + Z.of_nat (S (length l))) with ((k + 1) + Z.of_nat (length l)) by lia.
    apply IH. destruct acc as [[dw c] t]. unfold f.
    set (dayData := match dailyData d !! date with Some r => r | None => ∅ end).
    pose proof (day_pct_range (activities d) dayData p Ep) as Hr.
    destruct (day_scan (activities d) dayData) as [dc h]. simpl in Hr.
    destruct Hacc as (Hc & Hk & Ht0 & Ht1).
    destruct h; simpl.
    - rewrite inject_Z_plus. change (inject_Z 1) with 1%Q.
      split_and!; [destruct (Qeq_bool _ _); lia|destruct (Qeq_bool _ _); lia|lia|lra|lra].
    - split_and!; try lia; lra. }
  assert (H0 : I 0 (0, 0, 0%Q)) by (simpl; split_and!; try lia; unfold inject_Z; lra).
  pose proof (Hinv dateRange 0 _ H0) as Hfin. fold f.
  destruct (fold_left f dateRange (0, 0, 0%Q)) as [[dw c] t].
  destruct Hfin as (Hc & Hk & Ht0 & Ht1). simpl. split; [lia|].
  destruct (Z.ltb_spec 0 dw); [|lia].
  apply math_round_range.
  assert (Hdw : (0 < inject_Z dw)%Q) by (change 0%Q with (inject_Z 0); rewrite <- Zlt_Qlt; done).
  split.
  - apply Qle_shift_div_l; [done|]. lra.
  - apply Qle_shift_div_r; [done|]. lra.
Qed.


Lemma throttle_trace_spaced limit s clk es runs last :
  throttle_trace limit s clk es runs -> throttle_inv limit s clk last ->
  (forall l x ok, last = Some l -> head runs = Some (x, ok) -> l + limit <= x) /\
  (forall i x y ok, runs !! i = Some (x, true) -> runs !! S i = Some (y, ok) -> x + limit <= y).
Proof.
  intros Ht. revert last.
  induction Ht as [s clk|s clk t ok es runs Hle Ht IH|s s' clk t es runs Hle Hf Ht IH];
    intros last Hinv.
  - split; [by intros ? ? ? ? ?|]. intros i x y ok Hx. by rewrite lookup_nil in Hx.
  - unfold throttle_call in *. destruct (inThrottle s) eqn:Ei; simpl in *.
    + destruct last as [l|]; simpl in Hinv.
      2:{ subst s. done. }
      destruct Hinv as [(_ & Hts & Hl)|(Hf & _)]; [|congruence].
      apply IH. left. split_and!; [done|done|lia].
    + destruct ok; simpl in *.
      * destruct (IH (Some t)) as [IH1 IH2].
        { left. simpl. split_and!; [done| |lia].
          destruct last as [l|]; simpl in Hinv.
          - destruct Hinv as [(Ht' & _)|(_ & Hts & _)]; [congruence|by rewrite Hts].
          - by subst s. }
        split.
        -- intros l x ok Hl Hx. injection Hx as <- _. subst last. simpl in Hinv.
           destruct Hinv as [(Ht' & _)|(_ & _ & Hl')]; [congruence|lia].
        -- intros [|i] x y ok Hx Hy.
           ++ simpl in Hx, Hy. injection Hx as <-. destruct runs as [|[r rok] runs]; [done|].
              simpl in Hy. eapply (IH1 t); [done|]. simpl. exact Hy.
           ++ simpl in Hx, Hy. by apply (IH2 i x y ok).
      * destruct (IH last) as [IH1 IH2].
        { destruct last as [l|]; simpl in *; [|done].
          destruct Hinv as [(Ht' & _)|(Hf & Hts & Hl)]; [congruence|].
          right. split_and!; [done|done|lia]. }
        split.
        -- intros l x ok' Hl Hx. injection Hx as <- _. subst last. simpl in Hinv.
           destruct Hinv as [(Ht' & _)|(_ & _ & Hl')]; [congruence|lia].
        -- intros [|i] x y ok' Hx Hy; simpl in Hx, Hy; [done|]. by apply (IH2 i x y ok').
  - destruct Hf as [b ts1 due ts2 t' Hdue].
    destruct last as [l|]; simpl in Hinv.
    2:{ injection Hinv as _ H. by destruct ts1. }
    destruct Hinv as [(_ & Hts & Hl)|(_ & Hts & _)].
    + destruct ts1 as [|a [|a' ts1]]; simpl in Hts; injection Hts as -> ?; subst; try done.
      apply IH. right. simpl. split_and!; [done|done|lia].
    + by destruct ts1.
Qed.

Lemma throttle_trace_runs_calls limit s clk es runs :
  throttle_trace limit s clk es runs -> forall x ok, (x, ok) ∈ runs -> TCall x ok ∈ es.
Proof.
  induction 1 as [s clk|s clk t ok es runs Hle Ht IH|s s' clk t es runs Hle Hf Ht IH];
    intros x ok' Hx.
  - by apply not_elem_of_nil in Hx.
  - apply elem_of_app in Hx as [Hx|Hx].
    + unfold throttle_call in Hx. destruct (negb _); [destruct ok|]; simpl in Hx;
        try (apply list_elem_of_singleton in Hx; injection Hx as -> ->; constructor);
        by apply not_elem_of_nil in Hx.
    + apply elem_of_cons. right. by apply IH.
  - apply elem_of_cons. right. by apply IH.
Qed.

Lemma throttle_trace_all_throw limit s clk es runs :
  throttle_trace limit s clk es runs -> inThrottle s = false ->
  (forall t ok, TCall t ok ∈ es -> ok = false) -> runs = throttle_calls es.
Proof.
  induction 1 as [s clk|s clk t ok es runs Hle Ht IH|s s' clk t es runs Hle Hf Ht IH];
    intros Hs Hall.
  - done.
  - assert (ok = false) as -> by (apply (Hall t); constructor).
    unfold throttle_call in *. rewrite Hs in *. simpl in *. f_equal.
    apply IH; [done|]. intros t' ok' H. apply (Hall t'). by constructor.
  - simpl. apply IH.
    + by destruct Hf.
    + intros t' ok' H. apply (Hall t'). by constructor.
Qed.

(** X15: [throttle(func, limit)] (used for the once-a-minute new-day check):
    in any run of the event loop, starting from a fresh closure, [func]
    only runs at the times of calls, the first call runs it, a run that
    returns normally is followed by no run before [limit] has passed, and
    a [func] that throws on every call runs on every call, since the
    exception leaves before [inThrottle] is set. *)
Theorem throttle_spaced (limit clk : Z) (es : list ThrottleEvent) (runs : list (Z * bool))
  (Ht : throttle_trace limit (mkThrottle false []) clk es runs) :
  (forall x ok, (x, ok) ∈ runs -> TCall x ok ∈ es) /\
  (forall t ok es', es = TCall t ok :: es' -> head runs = Some (t, ok)) /\
  (forall i x y ok, runs !! i = Some (x, true) -> runs !! S i = Some (y, ok) -> x + limit <= y) /\
  ((forall t ok, TCall t ok ∈ es -> ok = false) -> runs = throttle_calls es).
Proof.
  split_and!.
  - by apply (throttle_trace_runs_calls limit (mkThrottle false []) clk).
  - intros t ok es' ->. inversion Ht; subst. by destruct ok.
  - by apply (proj2 (throttle_trace_spaced limit _ clk es runs None Ht eq_refl)).
  - by apply (throttle_trace_all_throw limit (mkThrottle false []) clk).
Qed.

Lemma trace_call_eq limit s clk t ok es runs runs' :
  clk <= t -> throttle_trace limit (fst (throttle_call limit s t ok)) t es runs ->
  runs' = option_list (snd (throttle_call limit s t ok)) ++ runs ->
  throttle_trace limit s clk (TCall t ok :: es) runs'.
Proof. intros ? ? ->. by constructor. Qed.

Lemma throttle_spaced_witness :
  throttle_trace 60000 (mkThrottle false []) 0
    [TCall 0 false; TCall 20000 true; TCall 30000 true; TFire 80000; TCall 81000 true]
    [(0, false); (20000, true); (81000, true)] /\
  [(0, false); (20000, true); (81000, true)] !! 1%nat = Some (20000, true) /\
  [(0, false); (20000, true); (81000, true)] !! 2%nat = Some (81000, true) /\
  20000 + 60000 <= 81000.
Proof.
  assert (Ht : throttle_trace 60000 (mkThrottle false []) 0
    [TCall 0 false; TCall 20000 true; TCall 30000 true; TFire 80000; TCall 81000 true]
    [(0, false); (20000, true); (81000, true)]).
  { apply (trace_call_eq 60000 _ 0 0 false _ [(20000, true); (81000, true)]); [lia| |reflexivity].
    simpl.
    apply (trace_call_eq 60000 _ 0 20000 true _ [(81000, true)]); [lia| |reflexivity]. simpl.
    apply (trace_call_eq 60000 _ 20000 30000 true _ [(81000, true)]); [lia| |reflexivity]. simpl.
    apply (trace_fire 60000 _ (mkThrottle false []) 30000 80000); [lia| |].
    { apply (fire_timer true [] 80000 [] 80000). lia. }
    apply (trace_call_eq 60000 _ 80000 81000 true _ []); [lia| |reflexivity]. simpl. constructor. }
  split; [exact Ht|]. split; [reflexivity|]. split; [reflexivity|].
  exact (proj1 (proj2 (proj2 (throttle_spaced 60000 0 _ _ Ht))) 1%nat 20000 81000 true
           eq_refl eq_refl).
Defined.

Lemma status_from_record now name st :
  truthy (getActivityStatus now name st) =
  match dailyData st !! getTodayDate now with
  | None => false
  | Some r => truthy (get_prop r name)
  end.
Proof.
  unfold getActivityStatus. destruct (dailyData st !! getTodayDate now); [|done].
  by destruct (truthy (get_prop _ name)) eqn:E.
Qed.

Lemma toggle_status_self now name st :
  proto_prop name = VUndefined ->
  truthy (getActivityStatus now name (toggleActivity_data now name st)) =
  negb (truthy (getActivityStatus now name st)).
Proof.
  intros Hp. rewrite !status_from_record, toggle_today_record.
  rewrite set_prop_ordinary by done. unfold get_prop at 1. rewrite lookup_insert_eq. simpl.
  unfold record_at. destruct (dailyData st !! getTodayDate now); simpl; [done|].
  rewrite get_prop_ordinary, lookup_empty by done. done.
Qed.

Lemma toggle_status_other now name name' st :
  name' <> name -> proto_prop name' = VUndefined ->
  truthy (getActivityStatus now name' (toggleActivity_data now name st)) =
  truthy (getActivityStatus now name' st).
Proof.
  intros Hne Hp. rewrite !status_from_record, toggle_today_record.
  unfold get_prop at 1. rewrite set_prop_lookup_ne by done.
  unfold record_at. destruct (dailyData st !! getTodayDate now); simpl; [done|].
  rewrite lookup_empty, Hp. done.
Qed.

Lemma toggle_status_inherited_fresh now name st :
  proto_prop name = VFunction -> dailyData st !! getTodayDate now = None ->
  getActivityStatus now name (toggleActivity_data now name st) = VBool false.
Proof.
  intros Hp Hnone. unfold getActivityStatus. rewrite toggle_today_record.
  unfold record_at. rewrite Hnone. simpl.
  unfold get_prop at 2. rewrite lookup_empty, Hp. simpl.
  unfold set_prop. rewrite bool_decide_false.
  2:{ intros ->. unfold proto_prop in Hp. by rewrite bool_decide_true in Hp. }
  simpl. unfold get_prop. by rewrite lookup_insert_eq.
Qed.

Lemma toggle_status_inherited_other now name name' st :
  proto_prop name' = VFunction -> dailyData st !! getTodayDate now = None -> name' <> name ->
  getActivityStatus now name' (toggleActivity_data now name st) = VFunction.
Proof.
  intros Hp Hnone Hne. unfold getActivityStatus. rewrite toggle_today_record.
  unfold get_prop. rewrite set_prop_lookup_ne by done.
  unfold record_at. rewrite Hnone. simpl. rewrite lookup_empty, Hp. reflexivity.
Qed.

Lemma renderActivities_rows_show now st rows :
  renderActivities now st = Some rows -> rows_show now st rows.
Proof.
  unfold renderActivities. destruct (length (activities st) =? 0)%nat; [done|].
  intros Hr. injection Hr as <-. split.
  - rewrite <- list_fmap_compose. apply list_fmap_id.
  - intros j a c Hj _. rewrite list_lookup_fmap in Hj.
    destruct (activities st !! j); simpl in Hj; [|done]. by injection Hj as -> ->.
Qed.

Lemma renderActivities_fresh_inherited now st rows j a c :
  renderActivities now st = Some rows -> rows !! j = Some (a, c) ->
  dailyData st !! getTodayDate now = None -> c = false.
Proof.
  unfold renderActivities. destruct (length (activities st) =? 0)%nat; [done|].
  intros Hr Hj Hnone. injection Hr as <-. rewrite list_lookup_fmap in Hj.
  destruct (activities st !! j); simpl in Hj; [|done]. injection Hj as -> <-.
  by rewrite status_from_record, Hnone.
Qed.

(** X3: The activity list on the page ([renderActivities]) and a click on
    a checkbox (the browser flips the box, the [change] listener runs
    [toggleActivity]; the list is not rendered again).  With distinct
    activity names and a save that fits in storage: if the boxes of
    activities with names not inherited from [Object.prototype] show their
    stored status before the click, as they do right after a render, they
    still do afterwards; only the clicked box changes on the page.  On a
    day with no record yet, the boxes of inherited names such as
    [constructor] are rendered unchecked; clicking such a box shows it
    checked while the stored status reads [false], and clicking another
    box leaves such a box unchecked while its stored status now reads as
    a function, which a later render shows checked. *)
Theorem renderActivities_click (fits : Ledger -> bool) (now : Z) (st : Ledger)
  (rows : list (jsstr * bool)) (i : nat) (a : jsstr) (c : bool)
  (rows' : list (jsstr * bool)) (st' : Ledger)
  (Hnd : NoDup (activities st)) (Hshow : rows_show now st rows)
  (Hi : rows !! i = Some (a, c)) (Hfits : fits (toggleActivity_data now a st) = true)
  (Hclick : click_checkbox fits now i rows st = Some (rows', st')) :
  (forall rows0, renderActivities now st = Some rows0 -> rows_show now st rows0) /\
  rows_show now st' rows' /\
  rows' !! i = Some (a, negb c) /\
  (forall j, j <> i -> rows' !! j = rows !! j) /\
  (renderActivities now st = Some rows -> proto_prop a = VFunction ->
     dailyData st !! getTodayDate now = None ->
     rows' !! i = Some (a, true) /\ getActivityStatus now a st' = VBool false) /\
  (forall j b d, renderActivities now st = Some rows -> rows !! j = Some (b, d) ->
     proto_prop b = VFunction -> dailyData st !! getTodayDate now = None -> b <> a ->
     rows' !! j = Some (b, false) /\ getActivityStatus now b st' = VFunction).
Proof.
  unfold click_checkbox in Hclick. rewrite Hi in Hclick. injection Hclick as <- <-.
  assert (Hst : toggleActivity fits now a st = toggleActivity_data now a st)
    by (unfold toggleActivity, saveData; by rewrite Hfits).
  rewrite Hst.
  destruct Hshow as [Hmap Hrows].
  assert (Hlt : (i < length rows)%nat) by (eapply lookup_lt_Some; exact Hi).
  assert (Hname : forall j b d, rows !! j = Some (b, d) -> j <> i -> b <> a).
  { intros j b d Hj Hne ->. apply Hne.
    apply (NoDup_lookup (activities st) j i a Hnd); rewrite <- Hmap, list_lookup_fmap.
    - by rewrite Hj.
    - by rewrite Hi. }
  assert (Hne_i : forall j, j <> i -> <[i := (a, negb c)]> rows !! j = rows !! j)
    by (intros j Hj; by apply list_lookup_insert_ne).
  split_and!.
  - apply renderActivities_rows_show.
  - split.
    + simpl. rewrite list_fmap_insert. simpl. rewrite Hmap. apply list_insert_id.
      rewrite <- Hmap, list_lookup_fmap, Hi. done.
    + intros j b d Hj Hp. destruct (decide (j = i)) as [->|Hne].
      * rewrite list_lookup_insert_eq in Hj by done. injection Hj as <- <-.
        rewrite toggle_status_self by done. f_equal. by apply (Hrows i a c).
      * rewrite Hne_i in Hj by done. rewrite toggle_status_other.
        -- by apply (Hrows j b d).
        -- by apply (Hname j b d).
        -- done.
  - by apply list_lookup_insert_eq.
  - done.
  - intros Hr Hp Hnone. rewrite list_lookup_insert_eq by done.
    rewrite (renderActivities_fresh_inherited now st rows i a c Hr Hi Hnone).
    split; [done|]. by apply toggle_status_inherited_fresh.
  - intros j b d Hr Hj Hp Hnone Hba.
    assert (Hji : j <> i) by (intros ->; rewrite Hi in Hj; congruence).
    rewrite Hne_i by done. rewrite Hj.
    rewrite (renderActivities_fresh_inherited now st rows j b d Hr Hj Hnone).
    split; [done|]. by apply toggle_status_inherited_other.
Qed.

Lemma renderActivities_click_witness :
  let st := mkLedger [js "Gym"; js "constructor"] ∅ (2024, 1, 1) Light [] 0 0 (2024, 1, 1) in
  let now := utc_time (2024, 1, 1) 12 in
  let rows := [(js "Gym", false); (js "constructor", false)] in
  NoDup (activities st) /\ rows_show now st rows /\ rows !! 0%nat = Some (js "Gym", false) /\
  (fun _ : Ledger => true) (toggleActivity_data now (js "Gym") st) = true /\
  click_checkbox (fun _ => true) now 0 rows st =
    Some ([(js "Gym", true); (js "constructor", false)],
          toggleActivity (fun _ => true) now (js "Gym") st) /\
  rows_show now (toggleActivity (fun _ => true) now (js "Gym") st)
    [(js "Gym", true); (js "constructor", false)] /\
  getActivityStatus now (js "constructor") (toggleActivity (fun _ => true) now (js "Gym") st)
    = VFunction.
Proof.
  intros st now rows.
  assert (Hr : renderActivities now st = Some rows) by (vm_compute; reflexivity).
  assert (Hnd : NoDup (activities st)).
  { apply NoDup_cons_2; [|apply NoDup_singleton].
    intros Hin. apply list_elem_of_singleton in Hin. vm_compute in Hin. congruence. }
  assert (Hsh : rows_show now st rows) by exact (renderActivities_rows_show now st rows Hr).
  assert (Hc : click_checkbox (fun _ => true) now 0 rows st =
    Some ([(js "Gym", true); (js "constructor", false)],
          toggleActivity (fun _ => true) now (js "Gym") st)) by reflexivity.
  assert (Hnone : dailyData st !! getTodayDate now = None) by (vm_compute; reflexivity).
  assert (Hne : js "constructor" <> js "Gym") by (intros Heq; vm_compute in Heq; congruence).
  destruct (renderActivities_click (fun _ => true) now st rows 0 (js "Gym") false _ _
              Hnd Hsh eq_refl eq_refl Hc) as (_ & H2 & _ & _ & _ & H6).
  split; [exact Hnd|]. split; [exact Hsh|]. split; [reflexivity|]. split; [reflexivity|].
  split; [exact Hc|]. split; [exact H2|].
  exact (proj2 (H6 1%nat (js "constructor") false Hr eq_refl eq_refl Hnone Hne)).
Defined.

(** ** Calendar months *)

Lemma days_from_civil_era y m d k :
  days_from_civil (y + 400 * k, m, d) = days_from_civil (y, m, d) + 146097 * k.
Proof.
  unfold days_from_civil.
  destruct (m <=? 2).
  - replace (y + 400 * k - 1) with ((y - 1) + k * 400) by lia.
    rewrite Z.div_add by lia.
    replace (y - 1 + k * 400 - ((y - 1) / 400 + k) * 400)
      with (y - 1 - (y - 1) / 400 * 400) by lia. lia.
  - replace (y + 400 * k) with (y + k * 400) by lia.
    rewrite Z.div_add by lia.
    replace (y + k * 400 - (y / 400 + k) * 400) with (y - y / 400 * 400) by lia. lia.
Qed.

Lemma civil_from_days_era z k :
  civil_from_days (z + 146097 * k) =
  let '(y, m, d) := civil_from_days z in (y + 400 * k, m, d).
Proof.
  unfold civil_from_days.
  replace (z + 146097 * k + 719468) with ((z + 719468) + k * 146097) by lia.
  rewrite Z.div_add by lia.
  replace (z + 719468 + k * 146097 - ((z + 719468) / 146097 + k) * 146097)
    with (z + 719468 - (z + 719468) / 146097 * 146097) by lia.
  set (doe := z + 719468 - (z + 719468) / 146097 * 146097).
  set (yoe := (doe - doe / 1460 + doe / 36524 - doe / 146096) / 365).
  set (mp := (5 * (doe - (365 * yoe + yoe / 4 - yoe / 100)) + 2) / 153).
  destruct (mp <? 10); [destruct (mp + 3 <=? 2)|destruct (mp - 9 <=? 2)]; f_equal; try f_equal; lia.
Qed.

Lemma era_ok_true :
  forallb (fun y => forallb (fun m => month_ok y m) (map Z.of_nat (seq 1 12)))
          (map Z.of_nat (seq 0 400)) = true.
Proof. vm_compute. reflexivity. Qed.

Lemma era_ok_spec y0 m : 0 <= y0 < 400 -> 1 <= m <= 12 -> month_ok y0 m = true.
Proof.
  intros Hy0 Hm.
  pose proof (proj1 (forallb_forall _ _) era_ok_true y0) as H.
  cbv beta in H.
  assert (Hin : In y0 (map Z.of_nat (seq 0 400))).
  { apply in_map_iff. exists (Z.to_nat y0). split; [lia|]. apply in_seq. lia. }
  specialize (H Hin).
  pose proof (proj1 (forallb_forall _ _) H m) as H'. cbv beta in H'.
  apply H'.
  apply in_map_iff. exists (Z.to_nat m). split; [lia|]. apply in_seq. lia.
Qed.

Lemma leap_year_era y : leap_year (y mod 400) = leap_year y.
Proof.
  unfold leap_year.
  rewrite (Z.mod_mod_divide y 400 4), (Z.mod_mod_divide y 400 100), Z.mod_mod by (lia || (exists 100; lia) || (exists 4; lia)).
  done.
Qed.

Lemma days_in_month_era y m : days_in_month (y mod 400) m = days_in_month y m.
Proof. unfold days_in_month. by rewrite leap_year_era. Qed.

Lemma month_facts y m : 1 <= m <= 12 ->
  (forall d, 1 <= d <= days_in_month y m ->
     civil_from_days (days_from_civil (y, m, 1) + d - 1) = (y, m, d)) /\
  days_from_civil (fst (next_month y m), snd (next_month y m), 1) =
    days_from_civil (y, m, 1) + days_in_month y m.
Proof.
  intros Hm.
  set (y0 := y mod 400). set (k := y / 400).
  assert (Hy : y = y0 + 400 * k) by (subst y0 k; pose proof (Z.div_mod y 400); lia).
  assert (Hy0 : 0 <= y0 < 400) by (subst y0; apply Z.mod_pos_bound; lia).
  pose proof (era_ok_spec y0 m Hy0 Hm) as Hok.
  unfold month_ok in Hok. apply andb_true_iff in Hok as [Hd Hn].
  rewrite forallb_forall in Hd. apply bool_decide_eq_true in Hn.
  rewrite <- days_in_month_era. fold y0.
  rewrite Hy, days_from_civil_era. split.
  - intros d Hdr.
    assert (Hin : In d (map Z.of_nat (seq 1 (Z.to_nat (days_in_month y0 m))))).
    { apply in_map_iff. exists (Z.to_nat d). split; [lia|]. apply in_seq. lia. }
    specialize (Hd d Hin). apply bool_decide_eq_true in Hd.
    replace (days_from_civil (y0, m, 1) + 146097 * k + d - 1)
      with ((days_from_civil (y0, m, 1) + d - 1) + 146097 * k) by lia.
    rewrite civil_from_days_era, Hd. done.
  - unfold next_month in *. destruct (m =? 12); cbn [fst snd] in *.
    + replace (y0 + 400 * k + 1) with ((y0 + 1) + 400 * k) by lia.
      rewrite days_from_civil_era. lia.
    + rewrite days_from_civil_era. lia.
Qed.

Lemma Day_local_midnight E o :
  -msPerDay < o < msPerDay ->
  Day (E * msPerDay - o) = if 0 <? o then E - 1 else E.
Proof.
  intros Ho. unfold Day.
  assert (Hpos : 0 < msPerDay) by (unfold msPerDay; lia).
  destruct (Z.ltb_spec 0 o).
  - replace (E * msPerDay - o) with ((msPerDay - o) + (E - 1) * msPerDay) by lia.
    rewrite Z.div_add, Z.div_small by lia. lia.
  - replace (E * msPerDay - o) with ((- o) + E * msPerDay) by lia.
    rewrite Z.div_add, Z.div_small by lia. lia.
Qed.

Lemma MakeDay_this_month y m day : 1 <= m <= 12 ->
  MakeDay y (m - 1) day = days_from_civil (y, m, 1) + day - 1.
Proof.
  intros Hm. unfold MakeDay.
  rewrite (Z.div_small (m - 1) 12), (Z.mod_small (m - 1) 12) by lia.
  by replace (y + 0) with y by lia; replace (m - 1 + 1) with m by lia.
Qed.

Lemma MakeDay_next_month y m : 1 <= m <= 12 ->
  MakeDay y m 0 = days_from_civil (fst (next_month y m), snd (next_month y m), 1) - 1.
Proof.
  intros Hm. unfold MakeDay, next_month.
  destruct (Z.eqb_spec m 12) as [->|Hne]; cbn [fst snd].
  - change (12 / 12) with 1. change (12 mod 12 + 1) with 1. by rewrite !Z.add_0_r.
  - rewrite (Z.div_small m 12), (Z.mod_small m 12) by lia. by rewrite !Z.add_0_r.
Qed.

(** X12: [getMonthDates()] in a zone with a fixed offset [o] (less than a day):
    west of UTC or at UTC it lists the local month's days 1 to the last
    in order; east of UTC every key is the day before, so the list starts
    with the last day of the previous month and misses the month's last
    day. *)
Theorem getMonthDates_fixed (o now : Z) (Ho : -msPerDay < o < msPerDay) :
  getMonthDates (fixed_zone o) now =
    map (fun d => if 0 <? o
                  then civil_from_days (days_from_civil (key_year (local_date (fixed_zone o) now),
                                                         key_month (local_date (fixed_zone o) now), d) - 1)
                  else (key_year (local_date (fixed_zone o) now),
                        key_month (local_date (fixed_zone o) now), d))
        (map Z.of_nat (seq 1 (Z.to_nat (days_in_month (key_year (local_date (fixed_zone o) now))
                                                       (key_month (local_date (fixed_zone o) now)))))) /\
  (0 < o -> (key_year (local_date (fixed_zone o) now), key_month (local_date (fixed_zone o) now),
             days_in_month (key_year (local_date (fixed_zone o) now))
                           (key_month (local_date (fixed_zone o) now)))
            ∉ getMonthDates (fixed_zone o) now).
Proof.
  unfold local_date.
  pose proof (civil_month_range (Day (LocalTime (fixed_zone o) now))) as Hm.
  unfold getMonthDates, getFullYear, getMonth, local_fields in *.
  set (Y := key_year (civil_from_days (Day (LocalTime (fixed_zone o) now)))) in *.
  set (M := key_month (civil_from_days (Day (LocalTime (fixed_zone o) now)))) in *.
  destruct (month_facts Y M Hm) as [Hdays Hnext].
  assert (Hdim : 28 <= days_in_month Y M).
  { unfold days_in_month. repeat case_match; lia. }
  assert (HN : getDate (fixed_zone o) (new_Date_local (fixed_zone o) Y (M - 1 + 1) 0) = days_in_month Y M).
  { unfold getDate, new_Date_local, local_fields, LocalTime, UTC, MakeDate.
    cbn [tz_offset_utc tz_offset_local fixed_zone].
    replace (M - 1 + 1) with M by lia.
    replace (MakeDay Y M 0 * msPerDay + 0 - o + o) with (MakeDay Y M 0 * msPerDay) by lia.
    rewrite day_of_day_start, MakeDay_next_month, Hnext by done.
    replace (days_from_civil (Y, M, 1) + days_in_month Y M - 1)
      with (days_from_civil (Y, M, 1) + days_in_month Y M - 1) by lia.
    rewrite Hdays by lia. done. }
  rewrite HN.
  assert (Hmap : map (fun day => iso_date_key (new_Date_local (fixed_zone o) Y (M - 1) day))
                   (map Z.of_nat (seq 1 (Z.to_nat (days_in_month Y M)))) =
                 map (fun d => if 0 <? o then civil_from_days (days_from_civil (Y, M, d) - 1)
                               else (Y, M, d))
                   (map Z.of_nat (seq 1 (Z.to_nat (days_in_month Y M))))).
  { apply map_ext_in. intros d Hd.
    apply in_map_iff in Hd as (n & <- & Hn). apply in_seq in Hn.
    unfold iso_date_key, new_Date_local, UTC, MakeDate.
    cbn [tz_offset_utc tz_offset_local fixed_zone].
    rewrite MakeDay_this_month by done.
    replace ((days_from_civil (Y, M, 1) + Z.of_nat n - 1) * msPerDay + 0 - o)
      with ((days_from_civil (Y, M, 1) + Z.of_nat n - 1) * msPerDay - o) by lia.
    rewrite Day_local_midnight by done.
    rewrite (days_from_civil_day_shift Y M (Z.of_nat n)).
    destruct (0 <? o).
    - f_equal; lia.
    - apply Hdays. lia. }
  split; [exact Hmap|].
  intros Hpos. rewrite Hmap. rewrite (proj2 (Z.ltb_lt 0 o) Hpos).
  intros Hin. apply list_elem_of_In, in_map_iff in Hin as (d & Hd & Hin).
  apply in_map_iff in Hin as (n & <- & Hn). apply in_seq in Hn.
  rewrite <- (Hdays (days_in_month Y M)) in Hd by lia.
  rewrite days_from_civil_day_shift in Hd.
  apply civil_from_days_inj in Hd. lia.
Qed.

Lemma getMonthDates_fixed_witness :
  -msPerDay < 3600000 < msPerDay /\
  (2024, 1, 31) ∉ getMonthDates (fixed_zone 3600000) (utc_time (2024, 1, 15) 12).
Proof.
  split; [unfold msPerDay; lia|].
  apply (proj2 (getMonthDates_fixed 3600000 (utc_time (2024, 1, 15) 12) ltac:(unfold msPerDay; lia))).
  lia.
Defined.
